(** * Achievement tracking engine of the loyalty cog (loyalty.py)

    A shallow embedding of the classes [Achievement], [Signal],
    [AchievementBackend] and [AchievementTracker] of [loyalty/loyalty.py],
    followed by the properties of the engine.

    Python integers are [Z], strings are [string], a [dict] used as a keyed
    store is a [gmap], a [list] is a [list].  Methods that mutate [self] are
    functions returning the new object; methods that may raise run in a small
    state-and-exception monad in which a raised exception keeps every
    mutation made before it, as in Python. *)

From Stdlib Require Import ZArith Lia Sorted Permutation.
From stdpp Require Import base list strings gmap fin_maps.

Local Open Scope Z_scope.

(** ** Goals *)

Module Goals.

(** A goal is the dict [{'level': .., 'name': .., 'description': ..}]. *)
Record Goal : Type := mkGoal {
  level : Z;
  name : string;
  description : string
}.

#[global] Instance Goal_eq_dec : EqDecision Goal.
Proof. solve_decision. Defined.

Definition level_le (g h : Goal) : Prop := level g <= level h.

(** [sorted(goals, key=lambda g: g['level'])].  Python's sort is stable, and
    the stable sorted arrangement of a list is unique; it is computed here by
    insertion, an element going before the first element of strictly greater
    or equal key that followed it in the input. *)
Fixpoint insert_by_level (g : Goal) (gs : list Goal) : list Goal :=
  match gs with
  | [] => [g]
  | h :: gs' =>
      if level g <=? level h then g :: h :: gs' else h :: insert_by_level g gs'
  end.

Fixpoint sorted_by_level (gs : list Goal) : list Goal :=
  match gs with
  | [] => []
  | g :: gs' => insert_by_level g (sorted_by_level gs')
  end.

End Goals.
Export Goals.

(** ** Achievement classes and instances *)

(** The two [evaluate] methods of the repository: the base one, which only
    reads [achieved], and [DiscordAchievement.evaluate], which adds
    [good_points] and subtracts [bad_points]. *)
Inductive evaluate_method : Type :=
  | BaseEvaluate
  | NetPointsEvaluate.

#[global] Instance evaluate_method_eq_dec : EqDecision evaluate_method.
Proof. solve_decision. Defined.

(** A class object deriving from (or being) [Achievement].  [cls_id] stands
    for the identity of the class object, [cls_name] for its [__name__]; the
    class attributes are [name] (here [cls_label]), [category], [keywords]
    and [goals]. *)
Record AchievementClass : Type := mkClass {
  cls_id : positive;
  cls_name : string;
  cls_label : string;
  category : string;
  keywords : list string;
  cls_goals : list Goal;
  cls_evaluate : evaluate_method
}.

#[global] Instance AchievementClass_eq_dec : EqDecision AchievementClass.
Proof. solve_decision. Defined.

(** The base class [Achievement] itself. *)
Definition Achievement_class : AchievementClass :=
  {| cls_id := 1%positive;
     cls_name := "Achievement";
     cls_label := "Achievement";
     category := "achievements";
     keywords := [];
     cls_goals := [];
     cls_evaluate := BaseEvaluate |}.

(** [DiscordAchievement] with the hard-coded goals used when the settings
    file holds none. *)
Definition DiscordAchievement : AchievementClass :=
  {| cls_id := 2%positive;
     cls_name := "DiscordAchievement";
     cls_label := "Chat Loyalty";
     category := "chat";
     keywords := [];
     cls_goals :=
       [ mkGoal 1 "My First Creation" "and it's so beautiful....";
         mkGoal 100 "Green thumb" "You've created at least 5 objects!";
         mkGoal 1000 "Clever thinker"
           "More than 10 new creations are all because of you.";
         mkGoal 10000 "Almost an adult" "Just about 18.";
         mkGoal 100000 "True Inspiration"
           "Or did you steal your ideas for these 15 items? Hmm?";
         mkGoal 200000 "Divine Creator"
           "All the world bows to your divine inspiration." ];
     cls_evaluate := NetPointsEvaluate |}.

(** The exceptions raised by the modelled code. *)
Inductive exn : Type :=
  | ValueError
  | AlreadyRegistered
  | NotRegistered
  | NameError
  | KeyError
  | IndexError
  | AttributeError
  | TypeError
  | FileNotFoundError.

#[global] Instance exn_eq_dec : EqDecision exn.
Proof. solve_decision. Defined.

Module Ach.

(** An instance: its class, the counter [_current] and the instance
    attribute [goals] set by [__init__]. *)
Record Achievement : Type := mkAchievement {
  a_class : AchievementClass;
  _current : Z;
  goals : list Goal
}.

#[global] Instance Achievement_eq_dec : EqDecision Achievement.
Proof. solve_decision. Defined.

(** [__init__(self, current=0)]. *)
Definition init (cls : AchievementClass) (current : Z) : Achievement :=
  {| a_class := cls;
     _current := current;
     goals := sorted_by_level (cls_goals cls) |}.

(** [achieved]: [[_ for _ in self.goals if self._current >= _['level']]]. *)
Definition achieved (a : Achievement) : list Goal :=
  filter (λ g, _current a >= level g) (goals a).

(** [unachieved]: [[_ for _ in self.goals if self._current < _['level']]]. *)
Definition unachieved (a : Achievement) : list Goal :=
  filter (λ g, _current a < level g) (goals a).

(** [current]: the pair of the counter and the first unmet goal, if any. *)
Definition current (a : Achievement) : Z * option Goal :=
  (_current a, head (unachieved a)).

Definition current_name (a : Achievement) : option string :=
  name <$> head (unachieved a).

Definition current_description (a : Achievement) : option string :=
  description <$> head (unachieved a).

Definition with_goals (gs : list Goal) (a : Achievement) : Achievement :=
  {| a_class := a_class a; _current := _current a; goals := gs |}.

Definition with_current (c : Z) (a : Achievement) : Achievement :=
  {| a_class := a_class a; _current := c; goals := goals a |}.

(** [add_goal(self, level, name, description)]. *)
Definition add_goal (l : Z) (n d : string) (a : Achievement) : Achievement :=
  with_goals (sorted_by_level (goals a ++ [mkGoal l n d])) a.

(** The test of [remove_goal]:
    [_.get('name') == name or _.get('level') == level]. *)
Definition matches (n : string) (l : Z) (g : Goal) : Prop :=
  name g = n ∨ level g = l.

#[global] Instance matches_dec n l g : Decision (matches n l g).
Proof. unfold matches. apply _. Defined.

(** [remove_goal(self, name, level)]. *)
Definition remove_goal (n : string) (l : Z) (a : Achievement) : Achievement :=
  with_goals (sorted_by_level (filter (λ g, ¬ matches n l g) (goals a))) a.

(** [increment(self, amount=1)]. *)
Definition increment (amount : Z) (a : Achievement) : Achievement :=
  with_current (_current a + amount) a.

(** [set_level(self, level)]. *)
Definition set_level (l : Z) (a : Achievement) : Achievement :=
  with_current l a.

(** [evaluate(self, *args)], dispatched on the class.  The base method
    accepts any arguments; [DiscordAchievement.evaluate] needs the two
    positional arguments [good_points] and [bad_points] and raises
    [TypeError] when called with fewer. *)
Definition evaluate (args : list Z) (a : Achievement)
  : exn + (Achievement * list Goal) :=
  match cls_evaluate (a_class a) with
  | BaseEvaluate => inr (a, achieved a)
  | NetPointsEvaluate =>
      match args with
      | good_points :: bad_points :: _ =>
          let a' := with_current (_current a + good_points - bad_points) a in
          inr (a', achieved a')
      | _ => inl TypeError
      end
  end.

(** The methods of an instance, to speak of every instance a program can
    build from a constructor call. *)
Inductive method : Type :=
  | Increment (amount : Z)
  | SetLevel (l : Z)
  | Evaluate (args : list Z)
  | AddGoal (l : Z) (n d : string)
  | RemoveGoal (n : string) (l : Z).

Definition call (a : Achievement) (m : method) : Achievement :=
  match m with
  | Increment amount => increment amount a
  | SetLevel l => set_level l a
  | Evaluate args =>
      match evaluate args a with
      | inr (a', _) => a'
      | inl _ => a
      end
  | AddGoal l n d => add_goal l n d a
  | RemoveGoal n l => remove_goal n l a
  end.

Definition calls (a : Achievement) (ms : list method) : Achievement :=
  foldl call a ms.

End Ach.
Export Ach.

(** ** State with exceptions *)

Module PyMonad.

(** A computation over a state [S]: it returns the state it leaves behind
    together with either the exception it raised or its result. *)
Definition M (S A : Type) : Type := S → S * (exn + A).

Definition ret {S A} (x : A) : M S A := λ s, (s, inr x).

Definition bind {S A B} (m : M S A) (k : A → M S B) : M S B :=
  λ s, match m s with
       | (s', inr x) => k x s'
       | (s', inl e) => (s', inl e)
       end.

Definition raise {S A} (e : exn) : M S A := λ s, (s, inl e).

Definition get {S} : M S S := λ s, (s, inr s).

Definition modify {S} (f : S → S) : M S unit := λ s, (f s, inr tt).

(** Runs a computation of a component of the state. *)
Definition zoom {S T A} (view : T → S) (update : S → T → T) (m : M S A)
  : M T A :=
  λ t, let '(s', r) := m (view t) in (update s' t, r).

(** [for x in l: body(x)]. *)
Fixpoint for_each {S A} (l : list A) (body : A → M S unit) : M S unit :=
  match l with
  | [] => ret tt
  | x :: l' => bind (body x) (λ _, for_each l' body)
  end.

#[global] Instance M_ret {S} : MRet (M S) := @ret S.
#[global] Instance M_bind {S} : MBind (M S) := λ A B k m, bind m k.

End PyMonad.
Export PyMonad.

(** ** Signals *)

Module Sig.

(** What [_make_id] is applied to: [None], a plain object (a function, a
    tracker, ...) or a bound method, which has a [__func__]. *)
Inductive pyobj : Type :=
  | PyNone
  | PyObject (oid : positive)
  | PyBoundMethod (self_id func_id : positive).

#[global] Instance pyobj_eq_dec : EqDecision pyobj.
Proof. solve_decision. Defined.

(** The values of [_make_id]: [id(target)], or the pair
    [(id(target.__self__), id(target.__func__))].  [IdNone] is [id(None)],
    which no other live object shares. *)
Inductive ident : Type :=
  | IdNone
  | IdObject (oid : positive)
  | IdMethod (self_id func_id : positive).

#[global] Instance ident_eq_dec : EqDecision ident.
Proof. solve_decision. Defined.

Definition _make_id (target : pyobj) : ident :=
  match target with
  | PyNone => IdNone
  | PyObject oid => IdObject oid
  | PyBoundMethod s f => IdMethod s f
  end.

Definition NONE_ID : ident := _make_id PyNone.

(** The first component of a lookup key is the [dispatch_uid] when one is
    given, the receiver's id otherwise. *)
Definition lookup_key : Type := (string + ident) * ident.

Section Signal.

(** [K]: the keyword arguments of a send; [V]: what receivers return; [E]:
    the exceptions they raise; [W]: the state receivers act upon. *)
Context {K V E W : Type}.

(** How a call ends.  [send_robust] catches [Exception] and its subclasses
    only; [RaisedBaseException] stands for the others ([SystemExit],
    [KeyboardInterrupt], ...). *)
Inductive outcome : Type :=
  | Returned (v : V)
  | RaisedException (e : E)
  | RaisedBaseException (e : E).

(** A receiver is a callable: the object it is and what a call
    [receiver(signal=self, sender=sender, **named)] does. *)
Record receiver : Type := mkReceiver {
  r_target : pyobj;
  r_call : pyobj → K → W → W * outcome
}.

(** The [receivers] list of a signal.  The lock is not modelled: calls are
    sequential here. *)
Record Signal : Type := mkSignal {
  receivers : list (lookup_key * receiver)
}.

(** [Signal()]. *)
Definition Signal_init : Signal := {| receivers := [] |}.

(** A [dispatch_uid] is used when it is truthy: given and not empty. *)
Definition make_lookup_key (r : pyobj) (sender : pyobj)
    (dispatch_uid : option string) : lookup_key :=
  match dispatch_uid with
  | Some (String c uid) => (inl (String c uid), _make_id sender)
  | _ => (inr (_make_id r), _make_id sender)
  end.

(** [connect(self, receiver, sender=None, dispatch_uid=None)]. *)
Definition connect (r : receiver) (sender : pyobj)
    (dispatch_uid : option string) (s : Signal) : Signal :=
  let key := make_lookup_key (r_target r) sender dispatch_uid in
  if decide (key ∈ (fst <$> receivers s)) then s
  else {| receivers := receivers s ++ [(key, r)] |}.

Fixpoint delete_first (key : lookup_key) (l : list (lookup_key * receiver))
  : list (lookup_key * receiver) :=
  match l with
  | [] => []
  | (r_key, r) :: l' =>
      if decide (r_key = key) then l' else (r_key, r) :: delete_first key l'
  end.

(** [disconnect(self, receiver=None, sender=None, dispatch_uid=None)]. *)
Definition disconnect (r : pyobj) (sender : pyobj)
    (dispatch_uid : option string) (s : Signal) : Signal :=
  {| receivers :=
       delete_first (make_lookup_key r sender dispatch_uid) (receivers s) |}.

(** [_receivers(self, sender)]. *)
Definition _receivers (s : Signal) (sender : pyobj) : list receiver :=
  let senderkey := _make_id sender in
  snd <$> filter (λ kr, snd (fst kr) = NONE_ID ∨ snd (fst kr) = senderkey)
                 (receivers s).

(** The state of a delivery: the receivers' state and the targets of the
    calls made so far, oldest first. *)
Definition delivery : Type := W * list pyobj.

Definition invoke (r : receiver) (sender : pyobj) (named : K) (d : delivery)
  : delivery * outcome :=
  let '(w, o) := r_call r sender named (fst d) in
  ((w, snd d ++ [r_target r]), o).

(** What is recorded for a receiver by [send_robust]. *)
Inductive response : Type :=
  | Value (v : V)
  | Error (e : E).

(** The loop of [send]: the first exception ends it and propagates. *)
Fixpoint send_loop (rs : list receiver) (sender : pyobj) (named : K)
    (responses : list (receiver * V)) (d : delivery)
  : delivery * (E + list (receiver * V)) :=
  match rs with
  | [] => (d, inr responses)
  | r :: rs' =>
      match invoke r sender named d with
      | (d', Returned v) => send_loop rs' sender named (responses ++ [(r, v)]) d'
      | (d', RaisedException e) => (d', inl e)
      | (d', RaisedBaseException e) => (d', inl e)
      end
  end.

(** [send(self, sender, **named)]. *)
Definition send (s : Signal) (sender : pyobj) (named : K) (d : delivery)
  : delivery * (E + list (receiver * V)) :=
  send_loop (_receivers s sender) sender named [] d.

(** The loop of [send_robust]: an [Exception] is recorded as the response
    and the loop goes on; anything else propagates. *)
Fixpoint send_robust_loop (rs : list receiver) (sender : pyobj) (named : K)
    (responses : list (receiver * response)) (d : delivery)
  : delivery * (E + list (receiver * response)) :=
  match rs with
  | [] => (d, inr responses)
  | r :: rs' =>
      match invoke r sender named d with
      | (d', Returned v) =>
          send_robust_loop rs' sender named (responses ++ [(r, Value v)]) d'
      | (d', RaisedException e) =>
          send_robust_loop rs' sender named (responses ++ [(r, Error e)]) d'
      | (d', RaisedBaseException e) => (d', inl e)
      end
  end.

(** [send_robust(self, sender, **named)]. *)
Definition send_robust (s : Signal) (sender : pyobj) (named : K) (d : delivery)
  : delivery * (E + list (receiver * response)) :=
  send_robust_loop (_receivers s sender) sender named [] d.

(** [has_listeners(self, sender=None)]. *)
Definition has_listeners (s : Signal) (sender : pyobj) : bool :=
  bool_decide (_receivers s sender ≠ []).

(** How many calls of a delivery went to a given target. *)
Definition times_invoked (target : pyobj) (d : delivery) : nat :=
  length (filter (λ t, t = target) (snd d)).

End Signal.

Arguments outcome : clear implicits.
Arguments response : clear implicits.
Arguments receiver : clear implicits.
Arguments Signal : clear implicits.

End Sig.
Export Sig.
(** ** The storage backend *)

Module Backend.

(** The subject of a record: [user.id] within [user.server.id]. *)
Record User : Type := mkUser {
  user_id : string;
  server_id : string
}.

(** A value of the JSON file, below the three levels of keys. *)
Inductive json : Type :=
  | JStr (s : string)
  | JInt (n : Z).

#[global] Instance json_eq_dec : EqDecision json.
Proof. solve_decision. Defined.

(** What [accounts] holds under a definition name: an [Achievement] instance
    put there by the backend, or a value just as [dataIO.load_json] read it
    from the file. *)
Inductive entry : Type :=
  | Inst (a : Achievement)
  | Raw (j : json).

#[global] Instance entry_eq_dec : EqDecision entry.
Proof. solve_decision. Defined.

(** [accounts]: server id, then user id, then definition name. *)
Abbreviation store := (gmap string (gmap string (gmap string entry))).

(** The contents of the JSON file, with the same three levels. *)
Abbreviation json_file := (gmap string (gmap string (gmap string json))).

(** The files, by path. *)
Abbreviation disk := (gmap string json_file).

Record AchievementBackend : Type := mkBackend {
  file_path : string;
  accounts : store
}.

(** The state backend methods run in: the backend object and the files. *)
Record BackendState : Type := mkBackendState {
  self : AchievementBackend;
  files : disk
}.

Definition set_accounts (acc : store) (st : BackendState) : BackendState :=
  {| self := {| file_path := file_path (self st); accounts := acc |};
     files := files st |}.

(** What the dict read from a file is, as a store. *)
Definition raw_store (f : json_file) : store :=
  (λ value_server : gmap string (gmap string json),
     (λ value_user : gmap string json, Raw <$> value_user) <$> value_server)
  <$> f.

(** [dataIO.load_json(path)]. *)
Definition load_json (path : string) : M BackendState json_file :=
  λ st, match files st !! path with
        | Some f => (st, inr f)
        | None => (st, inl FileNotFoundError)
        end.

(** [dataIO.save_json(path, data)]. *)
Definition save_json (path : string) (data : json_file) : M BackendState unit :=
  modify (λ st, {| self := self st; files := <[path := data]> (files st) |}).

(** [AchievementBackend(file_path)]: [accounts] is the loaded dict itself. *)
Definition AchievementBackend_init (path : string) (d : disk)
  : exn + AchievementBackend :=
  match d !! path with
  | Some f => inr {| file_path := path; accounts := raw_store f |}
  | None => inl FileNotFoundError
  end.

(** [accounts[server][user][name]]. *)
Definition store_lookup (server user name : string) (acc : store)
  : option entry :=
  match acc !! server with
  | Some value_server =>
      match value_server !! user with
      | Some value_user => value_user !! name
      | None => None
      end
  | None => None
  end.

(** [accounts[server][user][name] = e], the two outer dicts being there. *)
Definition store_set (server user name : string) (e : entry) (acc : store)
  : store :=
  let value_server := default ∅ (acc !! server) in
  let value_user := default ∅ (value_server !! user) in
  <[server := <[user := <[name := e]> value_user]> value_server]> acc.

(** The three tests that open [achievement_for_id] and [set_level_for_id]:
    each missing level is created, the innermost with [fresh]. *)
Definition ensure_entry (u : User) (name : string) (fresh : entry)
    (acc : store) : store :=
  let acc1 :=
    if decide (is_Some (acc !! server_id u)) then acc
    else <[server_id u := ∅]> acc in
  let value_server := default ∅ (acc1 !! server_id u) in
  let acc2 :=
    if decide (is_Some (value_server !! user_id u)) then acc1
    else <[server_id u := <[user_id u := ∅]> value_server]> acc1 in
  if decide (is_Some (store_lookup (server_id u) (user_id u) name acc2))
  then acc2
  else store_set (server_id u) (user_id u) name fresh acc2.

(** [key_achievement[0]]: the first character of the key, a string of
    length one; [IndexError] on the empty string. *)
Definition first_char (key : string) : option string :=
  match key with
  | EmptyString => None
  | String c _ => Some (String c EmptyString)
  end.

(** Some innermost dict has the empty string as a key. *)
Definition has_empty_name (acc : store) : Prop :=
  map_Exists (λ _ (value_server : gmap string (gmap string entry)),
    map_Exists (λ _ (value_user : gmap string entry),
      is_Some (value_user !! EmptyString)) value_server) acc.

#[global] Instance has_empty_name_dec acc : Decision (has_empty_name acc).
Proof. unfold has_empty_name. apply _. Defined.

(** The dict [to_save] built by the loops of [_save_loyalty]: under every
    key [key_achievement] the value [key_achievement[0]]. *)
Definition to_save (acc : store) : json_file :=
  (λ value_server : gmap string (gmap string entry),
     (λ value_user : gmap string entry,
        map_imap (λ key_achievement _, JStr <$> first_char key_achievement)
                 value_user) <$> value_server)
  <$> acc.

(** [_save_loyalty(self)]. *)
Definition _save_loyalty : M BackendState unit :=
  st ← get;
  if decide (has_empty_name (accounts (self st))) then raise IndexError
  else save_json (file_path (self st)) (to_save (accounts (self st))).

(** [achievement_for_id(self, user, achievement)]: the entry returned is the
    object held by [accounts]. *)
Definition achievement_for_id (u : User) (achievement : AchievementClass)
  : M BackendState entry :=
  modify (λ st, set_accounts
    (ensure_entry u (cls_name achievement) (Inst (init achievement 0))
       (accounts (self st))) st);;
  _save_loyalty;;
  st ← get;
  match store_lookup (server_id u) (user_id u) (cls_name achievement)
          (accounts (self st)) with
  | Some e => ret e
  | None => raise KeyError
  end.

(** [set_level_for_id(self, user, achievement, level)].  An entry that is
    not an instance has no [set_level]. *)
Definition set_level_for_id (u : User) (achievement : AchievementClass)
    (l : Z) : M BackendState unit :=
  modify (λ st, set_accounts
    (ensure_entry u (cls_name achievement) (Inst (init achievement l))
       (accounts (self st))) st);;
  st ← get;
  match store_lookup (server_id u) (user_id u) (cls_name achievement)
          (accounts (self st)) with
  | Some (Inst a) =>
      modify (set_accounts
        (store_set (server_id u) (user_id u) (cls_name achievement)
           (Inst (set_level l a)) (accounts (self st))));;
      _save_loyalty
  | Some (Raw _) => raise AttributeError
  | None => raise KeyError
  end.

(** [remove_id(self, user)].  The [del] statement names [server], which is
    neither a local of the method nor a global of the module: evaluating it
    raises [NameError] before anything is deleted. *)
Definition remove_id (u : User) : M BackendState unit :=
  st ← get;
  match accounts (self st) !! server_id u with
  | None => raise KeyError
  | Some value_server =>
      (if decide (is_Some (value_server !! user_id u)) then raise NameError
       else ret tt);;
      _save_loyalty
  end.

(** [wipe_achievements(self, server)]. *)
Definition wipe_achievements (server : string) : M BackendState unit :=
  modify (λ st, set_accounts (<[server := ∅]> (accounts (self st))) st);;
  _save_loyalty.

(** [_load_loyalty(self, file_path, achievement)].  The dicts are visited in
    the order of [map_to_list]; Python visits them in insertion order, which
    only decides how much of [accounts] has been rebuilt when the method
    raises. *)
Definition _load_loyalty (path : string) (achievement : AchievementClass)
  : M BackendState unit :=
  f ← load_json path;
  modify (set_accounts (raw_store f));;
  for_each (map_to_list (raw_store f)) (λ '(key_server, value_server),
    modify (λ st, set_accounts (<[key_server := ∅]> (accounts (self st))) st);;
    for_each (map_to_list value_server) (λ '(key_user, value_user),
      modify (λ st, set_accounts
        (<[key_server :=
             <[key_user := ∅]> (default ∅ (accounts (self st) !! key_server))]>
           (accounts (self st))) st);;
      for_each (map_to_list value_user) (λ '(key_achievement, _),
        st ← get;
        match store_lookup key_server key_user key_achievement
                (accounts (self st)) with
        | None => raise KeyError
        | Some (Raw _) => raise AttributeError
        | Some (Inst a) =>
            modify (set_accounts
              (store_set key_server key_user key_achievement
                 (Inst (init achievement (_current a))) (accounts (self st))))
        end))).

(** The progress value an entry carries, when it is an instance. *)
Definition progress (e : entry) : option Z :=
  match e with
  | Inst a => Some (fst (current a))
  | Raw _ => None
  end.

End Backend.
Export Backend.
(** ** The tracker *)

Module Tracker.

(** A call [signal.send_robust(self, tracked_id=.., achievement=.., ..)] on
    one of the three module-level signals, with the instance as it is at the
    time of the call.  Receivers are not part of the tracker's state: what
    they return or raise is collected by [send_robust] and dropped by the
    tracker. *)
Inductive emission : Type :=
  | level_increased (tracked_id : string) (achievement : Achievement)
  | goal_achieved (tracked_id : string) (achievement : Achievement)
      (goals : list Goal)
  | highest_level_achieved (tracked_id : string) (achievement : Achievement).

#[global] Instance emission_eq_dec : EqDecision emission.
Proof. solve_decision. Defined.

Definition is_goal_achieved (ev : emission) : Prop :=
  match ev with
  | goal_achieved _ _ _ => True
  | _ => False
  end.

#[global] Instance is_goal_achieved_dec ev : Decision (is_goal_achieved ev).
Proof. destruct ev; simpl; apply _. Defined.

(** The tracker object with what its methods act upon: the registry, the
    backend, the files and the signals sent so far, oldest first. *)
Record AchievementTracker : Type := mkTracker {
  _registry : list AchievementClass;
  backend : AchievementBackend;
  disk_files : disk;
  emitted : list emission
}.

Definition set_registry (reg : list AchievementClass) (t : AchievementTracker)
  : AchievementTracker :=
  {| _registry := reg; backend := backend t;
     disk_files := disk_files t; emitted := emitted t |}.

Definition emit (ev : emission) : M AchievementTracker unit :=
  modify (λ t, {| _registry := _registry t; backend := backend t;
                  disk_files := disk_files t; emitted := emitted t ++ [ev] |}).

(** A call of a method of [self.backend]. *)
Definition in_backend {A} (m : M BackendState A) : M AchievementTracker A :=
  zoom (λ t, {| self := backend t; files := disk_files t |})
       (λ st t, {| _registry := _registry t; backend := self st;
                   disk_files := files st; emitted := emitted t |})
       m.

(** [AchievementTracker.__init__] once the backend [b] has been built from
    the files [d]. *)
Definition fresh_tracker (b : AchievementBackend) (d : disk)
  : AchievementTracker :=
  {| _registry := []; backend := b; disk_files := d; emitted := [] |}.

(** [AchievementTracker(file_path)]. *)
Definition AchievementTracker_init (path : string) (d : disk)
  : exn + AchievementTracker :=
  match AchievementBackend_init path d with
  | inr b => inr (fresh_tracker b d)
  | inl e => inl e
  end.

(** The argument of [register] and [unregister]: a class, which the method
    wraps in a list, or an iterable of classes. *)
Inductive achievement_or_iterable : Type :=
  | OneClass (achievement : AchievementClass)
  | Iterable (achievements : list AchievementClass).

Definition as_list (arg : achievement_or_iterable) : list AchievementClass :=
  match arg with
  | OneClass achievement => [achievement]
  | Iterable achievements => achievements
  end.

(** The body of the loop of [register]. *)
Definition register_one (achievement : AchievementClass)
  : M AchievementTracker unit :=
  t ← get;
  if decide (category achievement = EmptyString) then raise ValueError
  else if decide (achievement ∈ _registry t) then raise AlreadyRegistered
  else if decide (achievement ≠ Achievement_class)
       then modify (set_registry (_registry t ++ [achievement]))
       else ret tt.

(** [register(self, achievement_or_iterable)]. *)
Definition register (arg : achievement_or_iterable)
  : M AchievementTracker unit :=
  for_each (as_list arg) register_one.

(** [list.remove(x)]: drops the first occurrence. *)
Fixpoint list_remove (x : AchievementClass) (l : list AchievementClass)
  : list AchievementClass :=
  match l with
  | [] => []
  | y :: l' => if decide (y = x) then l' else y :: list_remove x l'
  end.

(** [unregister(self, achievement_or_iterable)]. *)
Definition unregister (arg : achievement_or_iterable)
  : M AchievementTracker unit :=
  for_each (as_list arg) (λ achievement,
    t ← get;
    if decide (achievement ∈ _registry t)
    then modify (set_registry (list_remove achievement (_registry t)))
    else raise NotRegistered).

(** [is_registered(self, achievement)]. *)
Definition is_registered (achievement : AchievementClass)
    (t : AchievementTracker) : bool :=
  bool_decide (achievement ∈ _registry t).

(** [achievements(self, category=None, keywords=[])]. *)
Definition achievements (cat : option string) (kws : list string)
    (t : AchievementTracker) : list AchievementClass :=
  filter (λ achievement,
            (cat = None ∨ cat = Some (category achievement)) ∧
            Forall (λ k, k ∈ keywords achievement) kws)
         (_registry t).

(** The [achievement] argument of the per-subject methods: an instance, a
    class, or the name of a registered class. *)
Inductive achievement_ref : Type :=
  | ByInstance (a : Achievement)
  | ByClass (c : AchievementClass)
  | ByName (n : string).

(** The name the first lines of [achievement_for_id] reduce it to. *)
Definition ref_name (r : achievement_ref) : string :=
  match r with
  | ByInstance a => cls_name (a_class a)
  | ByClass c => cls_name c
  | ByName n => n
  end.

(** [achievement_for_id(self, user, achievement)]. *)
Definition Tracker_achievement_for_id (u : User) (r : achievement_ref)
  : M AchievementTracker entry :=
  t ← get;
  match filter (λ c, cls_name c = ref_name r) (_registry t) with
  | a0 :: _ => in_backend (achievement_for_id u a0)
  | [] => raise NotRegistered
  end.

(** What [_check_signals] returns: [new_goals] or [False]. *)
Inductive check_result : Type :=
  | NewGoals (new_goals : list Goal)
  | PyFalse.

#[global] Instance check_result_eq_dec : EqDecision check_result.
Proof. solve_decision. Defined.

(** [_check_signals(self, tracked_id, achievement, old_level, old_achieved)]. *)
Definition _check_signals (tracked_id : string) (achievement : Achievement)
    (old_level : Z) (old_achieved : list Goal)
  : M AchievementTracker check_result :=
  let cur_level := fst (current achievement) in
  (if decide (old_level < cur_level)
   then emit (level_increased tracked_id achievement) else ret tt);;
  if decide (old_achieved ≠ achieved achievement) then
    let new_goals := filter (λ g, g ∉ old_achieved) (achieved achievement) in
    emit (goal_achieved tracked_id achievement new_goals);;
    (if decide (unachieved achievement = [])
     then emit (highest_level_achieved tracked_id achievement) else ret tt);;
    ret (NewGoals new_goals)
  else ret PyFalse.

(** The instance behind the object a tracker method got from
    [achievement_for_id]; reading [current] off anything else raises
    [AttributeError]. *)
Definition as_instance (e : entry) : M AchievementTracker Achievement :=
  match e with
  | Inst a => ret a
  | Raw _ => raise AttributeError
  end.

(** A method call that changes the instance fetched for [u] under the name
    of [r]: the object is the one held by [accounts], so the store sees the
    change. *)
Definition mutate_in_place (u : User) (r : achievement_ref)
    (a' : Achievement) : M AchievementTracker unit :=
  in_backend (modify (λ st, set_accounts
    (store_set (server_id u) (user_id u) (ref_name r) (Inst a')
       (accounts (self st))) st)).

(** [increment(self, user, achievement, amount=1)]. *)
Definition Tracker_increment (u : User) (r : achievement_ref) (amount : Z)
  : M AchievementTracker check_result :=
  e ← Tracker_achievement_for_id u r;
  achievement ← as_instance e;
  let cur_level := fst (current achievement) in
  let old_achieved := achieved achievement in
  let achievement' := increment amount achievement in
  mutate_in_place u r achievement';;
  in_backend (set_level_for_id u (a_class achievement')
                (fst (current achievement')));;
  _check_signals (user_id u) achievement' cur_level old_achieved.

(** [evaluate(self, user, achievement, *args)]. *)
Definition Tracker_evaluate (u : User) (r : achievement_ref) (args : list Z)
  : M AchievementTracker (list Goal) :=
  e ← Tracker_achievement_for_id u r;
  achievement ← as_instance e;
  let cur_level := fst (current achievement) in
  let old_achieved := achieved achievement in
  match evaluate args achievement with
  | inl err => raise err
  | inr (achievement', result) =>
      mutate_in_place u r achievement';;
      in_backend (set_level_for_id u (a_class achievement')
                    (fst (current achievement')));;
      _check_signals (user_id u) achievement' cur_level old_achieved;;
      ret result
  end.

(** [set_level(self, user, achievement, level)]. *)
Definition Tracker_set_level (u : User) (r : achievement_ref) (l : Z)
  : M AchievementTracker unit :=
  e ← Tracker_achievement_for_id u r;
  achievement ← as_instance e;
  let cur_level := fst (current achievement) in
  let old_achieved := achieved achievement in
  let achievement' := set_level l achievement in
  mutate_in_place u r achievement';;
  in_backend (set_level_for_id u (a_class achievement')
                (fst (current achievement')));;
  _check_signals (user_id u) achievement' cur_level old_achieved;;
  ret tt.

(** [remove_id(self, user)]. *)
Definition Tracker_remove_id (u : User) : M AchievementTracker unit :=
  in_backend (remove_id u).

(** The three mutations, and what each hands to the instance. *)
Inductive mutation : Type :=
  | MIncrement (amount : Z)
  | MEvaluate (args : list Z)
  | MSetLevel (l : Z).

(** What a mutating tracker method returns. *)
Inductive returned : Type :=
  | RCheck (r : check_result)
  | RGoals (gs : list Goal)
  | RNone.

Definition Tracker_mutate (m : mutation) (u : User) (r : achievement_ref)
  : M AchievementTracker returned :=
  match m with
  | MIncrement amount => x ← Tracker_increment u r amount; ret (RCheck x)
  | MEvaluate args => x ← Tracker_evaluate u r args; ret (RGoals x)
  | MSetLevel l => Tracker_set_level u r l;; ret RNone
  end.

(** The instance after the mutation, when the instance's method returns. *)
Definition apply_mutation (m : mutation) (a : Achievement)
  : exn + Achievement :=
  match m with
  | MIncrement amount => inr (increment amount a)
  | MEvaluate args =>
      match evaluate args a with
      | inr (a', _) => inr a'
      | inl err => inl err
      end
  | MSetLevel l => inr (set_level l a)
  end.

(** The methods of a tracker, to speak of every tracker a program can
    build.  A call that raises leaves the tracker as it was when the
    exception was raised. *)
Inductive tracker_call : Type :=
  | Register (arg : achievement_or_iterable)
  | Unregister (arg : achievement_or_iterable)
  | AchievementForId (u : User) (r : achievement_ref)
  | Mutate (m : mutation) (u : User) (r : achievement_ref)
  | RemoveId (u : User).

Definition run_call (t : AchievementTracker) (c : tracker_call)
  : AchievementTracker :=
  match c with
  | Register arg => fst (register arg t)
  | Unregister arg => fst (unregister arg t)
  | AchievementForId u r => fst (Tracker_achievement_for_id u r t)
  | Mutate m u r => fst (Tracker_mutate m u r t)
  | RemoveId u => fst (Tracker_remove_id u t)
  end.

Definition run_calls (t : AchievementTracker) (cs : list tracker_call)
  : AchievementTracker :=
  foldl run_call t cs.

(** A computation that leaves a component of the tracker alone. *)
Definition keeps {A X} (proj : AchievementTracker → X)
    (m : M AchievementTracker A) : Prop :=
  ∀ t, proj (fst (m t)) = proj t.

(** What [register] and [unregister] keep true of the registry: no class
    with an empty category, and not the base class. *)
Definition registry_ok (reg : list AchievementClass) : Prop :=
  Forall (λ c, category c ≠ EmptyString ∧ c ≠ Achievement_class) reg.

End Tracker.
Export Tracker.

(** ** Sample objects *)

Module Samples.

(** Two receivers connected to a new signal, the first for every sender and
    raising, the second for one sender and returning; the state counts the
    calls. *)
Definition failing_receiver : receiver unit Z string nat :=
  {| r_target := PyObject 10;
     r_call := λ _ _ w, (S w, RaisedException "boom") |}.

Definition succeeding_receiver : receiver unit Z string nat :=
  {| r_target := PyBoundMethod 11 12;
     r_call := λ _ _ w, (S w, Returned 42) |}.

Definition two_receivers : Signal unit Z string nat :=
  connect succeeding_receiver (PyObject 7) None
    (connect failing_receiver PyNone None Signal_init).

(** A class with the goals at levels 1 and 100. *)
Definition Steps : AchievementClass :=
  {| cls_id := 3%positive;
     cls_name := "Steps";
     cls_label := "Steps";
     category := "walk";
     keywords := [];
     cls_goals := [mkGoal 1 "one" "first"; mkGoal 100 "hundred" "second"];
     cls_evaluate := BaseEvaluate |}.

Definition sample_user : User := {| user_id := "42"; server_id := "7" |}.

Definition sample_path : string := "loyalty.json".

(** The files when the cog starts for the first time: [check_files] has
    saved [{}]. *)
Definition empty_disk : disk := {[ sample_path := ∅ ]}.

(** [AchievementTracker("loyalty.json")] on these files. *)
Definition new_tracker : AchievementTracker :=
  fresh_tracker {| file_path := sample_path; accounts := ∅ |} empty_disk.

(** [tracker.register(Steps)], then
    [tracker.increment(user, Steps, 100)]. *)
Definition tracker_at_100 : AchievementTracker :=
  run_calls new_tracker
    [Register (OneClass Steps);
     Mutate (MIncrement 100) sample_user (ByClass Steps)].

(** The instance of [Steps] with the counter at [c]. *)
Definition steps_at (c : Z) : Achievement := init Steps c.

(** The backend of that tracker with the files, and what
    [_save_loyalty()] makes of them. *)
Definition backend_at_100 : BackendState :=
  {| self := backend tracker_at_100; files := disk_files tracker_at_100 |}.

Definition saved_at_100 : BackendState := fst (_save_loyalty backend_at_100).

(** [AchievementBackend("loyalty.json")] on the saved files. *)
Definition reloaded : exn + AchievementBackend :=
  AchievementBackend_init sample_path (files saved_at_100).

End Samples.
Export Samples.

(** ** The remaining methods *)

Module Views.

(** [current(self, user, achievement)]. *)
Definition Tracker_current (u : User) (r : achievement_ref)
  : M AchievementTracker (Z * option Goal) :=
  e ← Tracker_achievement_for_id u r;
  achievement ← as_instance e;
  ret (current achievement).

(** [current_name(self, user, achievement)]. *)
Definition Tracker_current_name (u : User) (r : achievement_ref)
  : M AchievementTracker (option string) :=
  e ← Tracker_achievement_for_id u r;
  achievement ← as_instance e;
  ret (current_name achievement).

(** [current_description(self, user, achievement)]. *)
Definition Tracker_current_description (u : User) (r : achievement_ref)
  : M AchievementTracker (option string) :=
  e ← Tracker_achievement_for_id u r;
  achievement ← as_instance e;
  ret (current_description achievement).

(** [achieved(self, user, achievement)]. *)
Definition Tracker_achieved (u : User) (r : achievement_ref)
  : M AchievementTracker (list Goal) :=
  e ← Tracker_achievement_for_id u r;
  achievement ← as_instance e;
  ret (achieved achievement).

(** [unachieved(self, user, achievement)]. *)
Definition Tracker_unachieved (u : User) (r : achievement_ref)
  : M AchievementTracker (list Goal) :=
  e ← Tracker_achievement_for_id u r;
  achievement ← as_instance e;
  ret (unachieved achievement).

End Views.
Export Views.

(** The calls that build a signal from [Signal()]. *)
Module SignalCalls.

Section SignalCalls.

Context {K V E W : Type}.

Inductive signal_call : Type :=
  | Connect (r : receiver K V E W) (sender : pyobj)
      (dispatch_uid : option string)
  | Disconnect (r : pyobj) (sender : pyobj) (dispatch_uid : option string).

Definition run_signal_call (s : Signal K V E W) (c : signal_call)
  : Signal K V E W :=
  match c with
  | Connect r sender dispatch_uid => connect r sender dispatch_uid s
  | Disconnect r sender dispatch_uid => disconnect r sender dispatch_uid s
  end.

Definition run_signal_calls (s : Signal K V E W) (cs : list signal_call)
  : Signal K V E W :=
  foldl run_signal_call s cs.

End SignalCalls.

Arguments signal_call : clear implicits.

End SignalCalls.
Export SignalCalls.

(** The tracker a restart builds on the file saved by the sample backend:
    [AchievementTracker("loyalty.json")], then [register(Steps)]. *)
Module AfterRestart.

Definition restarted_tracker : AchievementTracker :=
  match AchievementTracker_init sample_path (files saved_at_100) with
  | inr t => run_calls t [Register (OneClass Steps)]
  | inl _ => new_tracker
  end.

End AfterRestart.
Export AfterRestart.

(** ** Facts about sorting *)

Section Sorting.

Lemma insert_by_level_perm g gs : insert_by_level g gs ≡ₚ g :: gs.
Proof.
  induction gs as [|h gs IH]; simpl; [done|].
  destruct (level g <=? level h); [done|].
  rewrite IH. apply Permutation_swap.
Qed.

Lemma sorted_by_level_perm gs : sorted_by_level gs ≡ₚ gs.
Proof.
  induction gs as [|g gs IH]; simpl; [done|].
  by rewrite insert_by_level_perm, IH.
Qed.

Lemma insert_by_level_sorted g gs :
  StronglySorted level_le gs → StronglySorted level_le (insert_by_level g gs).
Proof.
  induction 1 as [|h gs Hs IH Hall]; simpl.
  - repeat constructor.
  - destruct (Z.leb_spec (level g) (level h)) as [Hle|Hlt].
    + constructor; [by constructor|].
      constructor; [done|].
      eapply Forall_impl; [exact Hall|]. unfold level_le. intros; lia.
    + constructor; [done|].
      rewrite insert_by_level_perm. constructor; [|done].
      unfold level_le. lia.
Qed.

Lemma sorted_by_level_sorted gs : StronglySorted level_le (sorted_by_level gs).
Proof.
  induction gs as [|g gs IH]; simpl; [constructor|].
  by apply insert_by_level_sorted.
Qed.

(** Sorting an already sorted list returns it: a stable sort never moves
    elements that are in order. *)
Lemma insert_by_level_head g gs :
  Forall (level_le g) gs → insert_by_level g gs = g :: gs.
Proof.
  destruct 1 as [|h gs Hle _]; simpl; [done|].
  unfold level_le in Hle. by destruct (Z.leb_spec (level g) (level h)); [|lia].
Qed.

Lemma sorted_by_level_id gs :
  StronglySorted level_le gs → sorted_by_level gs = gs.
Proof.
  induction 1 as [|g gs _ IH Hall]; simpl; [done|].
  rewrite IH. by apply insert_by_level_head.
Qed.

Lemma filter_sorted (P : Goal → Prop) `{!∀ g, Decision (P g)} gs :
  StronglySorted level_le gs → StronglySorted level_le (filter P gs).
Proof.
  induction 1 as [|g gs _ IH Hall]; [constructor|].
  rewrite filter_cons. destruct (decide (P g)); [|done].
  constructor; [done|].
  apply Forall_forall. intros h [_ Hh]%list_elem_of_filter.
  by eapply Forall_forall in Hall.
Qed.

End Sorting.

(** ** Goal sets of instances *)

Section GoalSets.

Implicit Types (a : Achievement) (gs : list Goal) (g : Goal).

Lemma filter_all (P : Goal → Prop) `{!∀ g, Decision (P g)} gs :
  Forall P gs → filter P gs = gs.
Proof.
  induction 1 as [|g gs Hg _ IH]; [done|].
  by rewrite filter_cons_True, IH.
Qed.

Lemma filter_none (P : Goal → Prop) `{!∀ g, Decision (P g)} gs :
  Forall (λ g, ¬ P g) gs → filter P gs = [].
Proof.
  induction 1 as [|g gs Hg _ IH]; [done|].
  by rewrite filter_cons_False.
Qed.

(** On a sorted goal list the counter cuts the list in two. *)
Lemma sorted_split (c : Z) gs :
  StronglySorted level_le gs →
  filter (λ g, c >= level g) gs ++ filter (λ g, c < level g) gs = gs.
Proof.
  induction 1 as [|g gs _ IH Hall]; [done|].
  destruct (decide (c >= level g)) as [Hge|Hlt].
  - rewrite filter_cons_True, filter_cons_False by lia.
    simpl. by rewrite IH.
  - rewrite filter_cons_False, filter_cons_True by lia.
    rewrite filter_none, filter_all; [done| |].
    + eapply Forall_impl; [exact Hall|]. unfold level_le. intros; lia.
    + eapply Forall_impl; [exact Hall|]. unfold level_le. intros; lia.
Qed.

(** Every method leaves the goals of an instance sorted; the constructor
    sorts them in the first place. *)
Lemma call_sorted a m :
  StronglySorted level_le (goals a) → StronglySorted level_le (goals (call a m)).
Proof.
  intros Hs. destruct m as [amount|l|args|l n d|n l]; simpl; try done.
  - unfold evaluate.
    destruct (cls_evaluate (a_class a)); [done|].
    by destruct args as [|? [|? ?]].
  - apply sorted_by_level_sorted.
  - apply sorted_by_level_sorted.
Qed.

Lemma calls_sorted a ms :
  StronglySorted level_le (goals a) → StronglySorted level_le (goals (calls a ms)).
Proof.
  revert a. induction ms as [|m ms IH]; intros a Hs; [done|].
  apply IH. by apply call_sorted.
Qed.

Lemma instance_sorted cls c0 ms :
  StronglySorted level_le (goals (calls (init cls c0) ms)).
Proof. apply calls_sorted, sorted_by_level_sorted. Qed.

Lemma achieved_set_level c a :
  achieved (set_level c a) = filter (λ g, c >= level g) (goals a).
Proof. done. Qed.

Lemma unachieved_set_level c a :
  unachieved (set_level c a) = filter (λ g, c < level g) (goals a).
Proof. done. Qed.

(** No goal is both achieved and unachieved, whatever the goals are. *)
Lemma achieved_unachieved_disjoint a g :
  g ∈ achieved a → g ∉ unachieved a.
Proof.
  unfold achieved, unachieved.
  intros [Hge _]%list_elem_of_filter [Hlt _]%list_elem_of_filter. lia.
Qed.

(** C2: for the instance built by the constructor and any method calls, and
    for every value [c] given to its counter, no goal is in both [achieved]
    and [unachieved], and [achieved] followed by [unachieved] is the goal
    list of the instance. *)
Theorem achieved_unachieved_partition
    (cls : AchievementClass) (c0 : Z) (ms : list method) (c : Z) :
  let a := set_level c (calls (init cls c0) ms) in
  (∀ g, g ∈ achieved a → g ∉ unachieved a) ∧
  achieved a ++ unachieved a = goals a.
Proof.
  intros a. split.
  - apply achieved_unachieved_disjoint.
  - subst a. rewrite achieved_set_level, unachieved_set_level.
    apply sorted_split, instance_sorted.
Qed.

(** C5: whatever the goals of an instance are, after [add_goal] and after
    [remove_goal] they are in ascending order of level; [add_goal] keeps the
    old goals and the new one, [remove_goal] only drops goals. *)
Theorem add_remove_goal_sorted a (l : Z) (n d : string) :
  (StronglySorted level_le (goals (add_goal l n d a)) ∧
   goals (add_goal l n d a) ≡ₚ mkGoal l n d :: goals a) ∧
  (StronglySorted level_le (goals (remove_goal n l a)) ∧
   goals (remove_goal n l a) ⊆ goals a).
Proof.
  repeat split.
  - apply sorted_by_level_sorted.
  - simpl. rewrite sorted_by_level_perm. by rewrite Permutation_app_comm.
  - apply sorted_by_level_sorted.
  - simpl. intros g. rewrite sorted_by_level_perm.
    by intros [_ ?]%list_elem_of_filter.
Qed.

(** Whatever the goals are, [remove_goal] keeps the goals that match neither
    way, each as many times as it was there. *)
Lemma remove_goal_perm a (n : string) (l : Z) :
  goals (remove_goal n l a) ≡ₚ filter (λ g, ¬ matches n l g) (goals a).
Proof. apply sorted_by_level_perm. Qed.

(** C7: on the instance built by the constructor and any method calls,
    [remove_goal(name, level)] leaves exactly the goals whose name differs
    from [name] and whose level differs from [level], in the order they
    were in: a goal goes when its name matches or its level matches.  The
    counter is not changed. *)
Theorem remove_goal_or_match
    (cls : AchievementClass) (c0 : Z) (ms : list method) (n : string) (l : Z) :
  let a := calls (init cls c0) ms in
  goals (remove_goal n l a) = filter (λ g, ¬ (name g = n ∨ level g = l)) (goals a) ∧
  (∀ g, g ∈ goals (remove_goal n l a) ↔
        g ∈ goals a ∧ ¬ (name g = n ∨ level g = l)) ∧
  _current (remove_goal n l a) = _current a.
Proof.
  intros a.
  assert (Heq : goals (remove_goal n l a)
                = filter (λ g, ¬ matches n l g) (goals a)).
  { apply sorted_by_level_id, filter_sorted, instance_sorted. }
  split; [exact Heq|split; [|done]].
  intros g. rewrite Heq, list_elem_of_filter. unfold matches. tauto.
Qed.

End GoalSets.

(** ** Delivery of signals *)

Section Delivery.

Context {K V E W : Type}.
Implicit Types (s : Signal K V E W) (r : receiver K V E W).

(** A call is logged once, after the calls made before it. *)
Lemma invoke_spec r sender named (w : W) (log : list pyobj) :
  invoke r sender named (w, log)
  = ((fst (r_call r sender named w), log ++ [r_target r]),
     snd (r_call r sender named w)).
Proof. unfold invoke. simpl. by destruct (r_call r sender named w). Qed.

(** When no receiver raises outside [Exception], [send_robust] calls every
    receiver, in order, and returns one response for each. *)
Lemma send_robust_loop_total (rs : list (receiver K V E W)) sender named :
  ∀ responses (d : W * list pyobj),
  (∀ r w e, r ∈ rs → snd (r_call r sender named w) ≠ RaisedBaseException e) →
  ∃ w' responses',
    send_robust_loop rs sender named responses d
    = ((w', snd d ++ (r_target <$> rs)), inr (responses ++ responses')) ∧
    fst <$> responses' = rs.
Proof.
  induction rs as [|r rs IH]; intros responses [w log] Hok; simpl.
  - exists w, []. by rewrite !app_nil_r.
  - rewrite invoke_spec.
    assert (Hrs : ∀ r' w' e, r' ∈ rs →
              snd (r_call r' sender named w') ≠ RaisedBaseException e).
    { intros r' w' e Hin. apply Hok. by right. }
    destruct (snd (r_call r sender named w)) as [v|e|e] eqn:Ho.
    + destruct (IH (responses ++ [(r, Value v)])
                  (fst (r_call r sender named w), log ++ [r_target r]) Hrs)
        as (w' & rest & -> & Hfst).
      exists w', ((r, Value v) :: rest).
      split; [|by rewrite fmap_cons, Hfst].
      simpl. by rewrite <- !app_assoc.
    + destruct (IH (responses ++ [(r, Error e)])
                  (fst (r_call r sender named w), log ++ [r_target r]) Hrs)
        as (w' & rest & -> & Hfst).
      exists w', ((r, Error e) :: rest).
      split; [|by rewrite fmap_cons, Hfst].
      simpl. by rewrite <- !app_assoc.
    + exfalso. eapply Hok; [by left|exact Ho].
Qed.

(** C8: when the receivers registered for [sender] are one that raises an
    exception [e] and one that returns [v], in either order, [send_robust]
    returns two responses, in the order of registration: the exception [e]
    for the failing receiver and the value [v] for the succeeding one; and
    each of the two has been called exactly once. *)
Theorem send_robust_one_failing_one_succeeding
    s (sender : pyobj) (named : K) (w : W)
    (failing succeeding : receiver K V E W) (e : E) (v : V)
    (failing_first : bool) :
  r_target failing ≠ r_target succeeding →
  _receivers s sender
    = (if failing_first then [failing; succeeding] else [succeeding; failing]) →
  (∀ w, snd (r_call failing sender named w) = RaisedException e) →
  (∀ w, snd (r_call succeeding sender named w) = Returned v) →
  ∃ d',
    send_robust s sender named (w, [])
    = (d', inr (if failing_first
                then [(failing, Error e); (succeeding, Value v)]
                else [(succeeding, Value v); (failing, Error e)])) ∧
    times_invoked (r_target failing) d' = 1%nat ∧
    times_invoked (r_target succeeding) d' = 1%nat.
Proof.
  intros Hne Hrs Hf Hs. unfold send_robust. rewrite Hrs.
  destruct failing_first; cbn [send_robust_loop].
  - rewrite invoke_spec, Hf. cbn [send_robust_loop].
    rewrite invoke_spec, Hs.
    eexists; split; [reflexivity|]. unfold times_invoked; simpl.
    split.
    + by rewrite filter_cons_True, filter_cons_False.
    + by rewrite filter_cons_False, filter_cons_True.
  - rewrite invoke_spec, Hs. cbn [send_robust_loop].
    rewrite invoke_spec, Hf.
    eexists; split; [reflexivity|]. unfold times_invoked; simpl.
    split.
    + by rewrite filter_cons_False, filter_cons_True.
    + by rewrite filter_cons_True, filter_cons_False.
Qed.

End Delivery.

(** The two sample receivers, connected to a new signal, the failing one
    first. *)
Lemma send_robust_one_failing_one_succeeding_witness :
  ∃ d',
    send_robust two_receivers (PyObject 7) tt (0%nat, [])
    = (d', inr [(failing_receiver, Error "boom");
                (succeeding_receiver, Value 42)]) ∧
    times_invoked (r_target failing_receiver) d' = 1%nat ∧
    times_invoked (r_target succeeding_receiver) d' = 1%nat.
Proof.
  apply (send_robust_one_failing_one_succeeding
           two_receivers (PyObject 7) tt 0%nat
           failing_receiver succeeding_receiver "boom" 42 true).
  - discriminate.
  - reflexivity.
  - reflexivity.
  - reflexivity.
Defined.

(** ** The monad *)

Section Monad.

Context {S : Type}.

Lemma bind_inr {A B} (m : M S A) (k : A → M S B) s s' y :
  bind m k s = (s', inr y) →
  ∃ s1 x, m s = (s1, inr x) ∧ k x s1 = (s', inr y).
Proof.
  unfold bind. destruct (m s) as [s1 [e|x]]; [done|]. eauto.
Qed.

Lemma bind_ok {A B} (m : M S A) (k : A → M S B) s s1 x :
  m s = (s1, inr x) → bind m k s = k x s1.
Proof. unfold bind. by intros ->. Qed.

Lemma bind_raise {A B} (m : M S A) (k : A → M S B) s s1 e :
  m s = (s1, inl e) → bind m k s = (s1, inl e).
Proof. unfold bind. by intros ->. Qed.

Lemma for_each_app {A} (l1 l2 : list A) (body : A → M S unit) s :
  for_each (l1 ++ l2) body s
  = bind (for_each l1 body) (λ _, for_each l2 body) s.
Proof.
  revert s. induction l1 as [|x l1 IH]; intros s; simpl; [done|].
  unfold bind in *. destruct (body x s) as [s1 [e|[]]]; [done|].
  apply IH.
Qed.

End Monad.

(** ** The registry *)

Section Registry.

Implicit Types (t : AchievementTracker) (c : AchievementClass).

Section Keeps.

Context {X : Type} (proj : AchievementTracker → X).

Lemma keeps_ret {A} (x : A) : keeps proj (ret x).
Proof. done. Qed.

Lemma keeps_raise {A} e : keeps proj (@raise _ A e).
Proof. done. Qed.

Lemma keeps_get : keeps proj get.
Proof. done. Qed.

Lemma keeps_bind {A B} (m : M AchievementTracker A)
    (k : A → M AchievementTracker B) :
  keeps proj m → (∀ x, keeps proj (k x)) → keeps proj (bind m k).
Proof.
  intros Hm Hk t. unfold bind. specialize (Hm t).
  destruct (m t) as [t1 [e|x]]; [done|].
  simpl in Hm. by rewrite Hk.
Qed.

End Keeps.

Lemma keeps_registry_emit ev : keeps _registry (emit ev).
Proof. done. Qed.

Lemma keeps_registry_in_backend {A} (m : M BackendState A) :
  keeps _registry (in_backend m).
Proof. intros t. unfold in_backend, zoom. by destruct (m _). Qed.

Lemma keeps_emitted_in_backend {A} (m : M BackendState A) :
  keeps emitted (in_backend m).
Proof. intros t. unfold in_backend, zoom. by destruct (m _). Qed.

Local Ltac keeps :=
  repeat first
    [ apply keeps_ret | apply keeps_raise | apply keeps_get
    | apply keeps_registry_emit | apply keeps_registry_in_backend
    | apply keeps_emitted_in_backend
    | apply keeps_bind; [|intros ?]
    | case_decide | case_match ].

Lemma keeps_registry_check_signals tid a old_level old_achieved :
  keeps _registry (_check_signals tid a old_level old_achieved).
Proof. unfold _check_signals, mbind, M_bind. keeps. Qed.

Lemma keeps_registry_achievement_for_id u r :
  keeps _registry (Tracker_achievement_for_id u r).
Proof. unfold Tracker_achievement_for_id, mbind, M_bind. keeps. Qed.

Lemma keeps_emitted_achievement_for_id u r :
  keeps emitted (Tracker_achievement_for_id u r).
Proof. unfold Tracker_achievement_for_id, mbind, M_bind. keeps. Qed.

Lemma keeps_registry_mutate m u r : keeps _registry (Tracker_mutate m u r).
Proof.
  destruct m; unfold Tracker_mutate, Tracker_increment, Tracker_evaluate,
    Tracker_set_level, as_instance, mutate_in_place, mbind, M_bind, mret, M_ret;
    keeps;
    first [apply keeps_registry_achievement_for_id
          |apply keeps_registry_check_signals].
Qed.

Lemma register_one_ok c t :
  registry_ok (_registry t) → registry_ok (_registry (fst (register_one c t))).
Proof.
  intros Hok. unfold register_one, mbind, M_bind, bind, get. simpl.
  repeat case_decide; simpl; try done.
  apply Forall_app. split; [done|]. by repeat constructor.
Qed.

Lemma register_ok l t :
  registry_ok (_registry t) →
  registry_ok (_registry (fst (for_each l register_one t))).
Proof.
  revert t. induction l as [|c l IH]; intros t Hok; simpl; [done|].
  unfold bind. pose proof (register_one_ok c t Hok) as H1.
  destruct (register_one c t) as [t1 [e|[]]]; [done|]. by apply IH.
Qed.

Lemma list_remove_subseteq c l : list_remove c l ⊆ l.
Proof.
  induction l as [|y l IH]; simpl; [done|].
  case_decide; [by apply list_subseteq_cons|].
  intros x [->|Hx]%elem_of_cons; [by left|right; by apply IH].
Qed.

Lemma unregister_ok l t :
  registry_ok (_registry t) →
  registry_ok (_registry (fst (unregister (Iterable l) t))).
Proof.
  unfold unregister. simpl.
  revert t. induction l as [|c l IH]; intros t Hok; simpl; [done|].
  unfold mbind, M_bind, bind, get, modify, raise. simpl.
  case_decide; simpl; [|done].
  apply (IH (set_registry (list_remove c (_registry t)) t)). simpl.
  unfold registry_ok in *. rewrite Forall_forall in *.
  intros x Hx. by apply Hok, (list_remove_subseteq c).
Qed.

Lemma run_call_ok t call :
  registry_ok (_registry t) → registry_ok (_registry (run_call t call)).
Proof.
  intros Hok. destruct call as [arg|arg|u r|m u r|u]; simpl.
  - by apply register_ok.
  - destruct arg as [c|l]; [apply (unregister_ok [c])|apply unregister_ok]; done.
  - by rewrite keeps_registry_achievement_for_id.
  - by rewrite keeps_registry_mutate.
  - unfold Tracker_remove_id. by rewrite keeps_registry_in_backend.
Qed.

Lemma run_calls_ok t cs :
  registry_ok (_registry t) → registry_ok (_registry (run_calls t cs)).
Proof.
  revert t. induction cs as [|call cs IH]; intros t Hok; [done|].
  apply IH. by apply run_call_ok.
Qed.

Lemma built_tracker_ok b d cs :
  registry_ok (_registry (run_calls (fresh_tracker b d) cs)).
Proof. apply run_calls_ok. constructor. Qed.



(** A run of the loop of [register] that ends without an exception has
    appended its classes, the base class apart, in order. *)
Lemma register_loop_registry l t t1 :
  for_each l register_one t = (t1, inr tt) →
  _registry t1 = _registry t ++ filter (λ c, c ≠ Achievement_class) l.
Proof.
  revert t. induction l as [|c l IH]; intros t; simpl.
  - intros [= <-]. by rewrite app_nil_r.
  - intros (t2 & [] & Hone & Hrest)%bind_inr.
    apply IH in Hrest. rewrite Hrest. clear Hrest IH.
    revert Hone. unfold register_one, mbind, M_bind, bind, get. simpl.
    case_decide; [done|]. case_decide; [done|]. case_decide.
    + intros [= <-]. simpl. rewrite filter_cons_True by done.
      by rewrite <- app_assoc.
    + intros [= <-]. by rewrite filter_cons_False by (intros ?; done).
Qed.

Lemma register_one_class c t :
  register (OneClass c) t
  = (fst (register_one c t),
     match snd (register_one c t) with inl e => inl e | inr _ => inr tt end).
Proof.
  unfold register. simpl. unfold bind.
  by destruct (register_one c t) as [t1 [e|[]]].
Qed.

(** Registering the base class does nothing, once it is known not to be in
    the registry. *)
Lemma register_one_base t :
  Achievement_class ∉ _registry t →
  register_one Achievement_class t = (t, inr tt).
Proof.
  intros Hnot. unfold register_one, mbind, M_bind, bind, get. simpl.
  by repeat case_decide.
Qed.

Lemma base_not_registered reg : registry_ok reg → Achievement_class ∉ reg.
Proof.
  intros Hok Hin. eapply Forall_forall in Hok as [_ Hne]; [|exact Hin]. done.
Qed.

Lemma register_replicate_base n t :
  Achievement_class ∉ _registry t →
  register (Iterable (replicate n Achievement_class)) t = (t, inr tt).
Proof.
  intros Hnot. unfold register. simpl.
  induction n as [|n IH]; simpl; [done|].
  unfold bind. by rewrite register_one_base.
Qed.

(** C9: on a tracker built by the constructor and any method calls,
    [register(Achievement)] returns without raising and leaves the tracker,
    and so its registry, as it was, however often it is called in a row and
    also when the base class comes several times in one iterable; the base
    class is not in the registry. *)
Theorem register_base_class_never_registered
    (b : AchievementBackend) (d : disk) (cs : list tracker_call) (n : nat) :
  let t := run_calls (fresh_tracker b d) cs in
  register (OneClass Achievement_class) t = (t, inr tt) ∧
  Nat.iter n (λ t', fst (register (OneClass Achievement_class) t')) t = t ∧
  register (Iterable (replicate n Achievement_class)) t = (t, inr tt) ∧
  Achievement_class ∉ _registry t.
Proof.
  intros t.
  assert (Hnot : Achievement_class ∉ _registry t)
    by apply base_not_registered, built_tracker_ok.
  assert (Hone : register (OneClass Achievement_class) t = (t, inr tt)).
  { by rewrite register_one_class, register_one_base. }
  repeat split; [done| |by apply register_replicate_base|done].
  induction n as [|n IH]; simpl; [done|]. by rewrite IH, Hone.
Qed.


(** C10: when the classes of [pre] register without an exception and the
    next class [bad] has an empty category or is by then in the registry,
    [register] of the iterable [pre ++ bad :: post] raises [ValueError] or
    [AlreadyRegistered], and the tracker it leaves is the one after
    registering [pre]: every class of [pre] but the base class is in the
    registry, appended in order to what was registered before. *)
Theorem register_iterable_not_atomic
    (t t1 : AchievementTracker) (pre post : list AchievementClass)
    (bad : AchievementClass) :
  register (Iterable pre) t = (t1, inr tt) →
  category bad = EmptyString ∨ bad ∈ _registry t1 →
  ∃ err,
    register (Iterable (pre ++ bad :: post)) t = (t1, inl err) ∧
    (err = ValueError ∨ err = AlreadyRegistered) ∧
    _registry t1 = _registry t ++ filter (λ c, c ≠ Achievement_class) pre ∧
    (∀ c, c ∈ pre → c ≠ Achievement_class → c ∈ _registry t1).
Proof.
  intros Hpre Hbad.
  assert (Hreg : _registry t1
                 = _registry t ++ filter (λ c, c ≠ Achievement_class) pre)
    by (eapply register_loop_registry; exact Hpre).
  assert (∃ err, register_one bad t1 = (t1, inl err) ∧
                 (err = ValueError ∨ err = AlreadyRegistered))
    as (err & Hone & Herr).
  { unfold register_one, mbind, M_bind, bind, get. simpl.
    case_decide; [by eauto|]. case_decide; [by eauto|].
    by destruct Hbad. }
  exists err. repeat split; [|done|done|].
  - unfold register in *. simpl in *. rewrite for_each_app.
    erewrite bind_ok by exact Hpre. simpl.
    by erewrite bind_raise by exact Hone.
  - intros c Hc Hne. rewrite Hreg. apply elem_of_app. right.
    by apply list_elem_of_filter.
Qed.

End Registry.


(** [register([Steps, Steps, DiscordAchievement])] on a new tracker: the
    second element raises, the first stays registered. *)
Lemma register_iterable_not_atomic_witness :
  let t1 := fst (register (Iterable [Steps]) new_tracker) in
  ∃ err,
    register (Iterable ([Steps] ++ Steps :: [DiscordAchievement])) new_tracker
    = (t1, inl err) ∧
    (err = ValueError ∨ err = AlreadyRegistered) ∧
    _registry t1
    = _registry new_tracker ++ filter (λ c, c ≠ Achievement_class) [Steps] ∧
    (∀ c, c ∈ [Steps] → c ≠ Achievement_class → c ∈ _registry t1).
Proof.
  intros t1.
  apply (register_iterable_not_atomic new_tracker t1 [Steps]
           [DiscordAchievement] Steps).
  - vm_compute. reflexivity.
  - right. vm_compute. left.
Defined.

(** ** The backend *)

Section BackendFacts.

Implicit Types (st : BackendState) (u : User) (t : AchievementTracker).

(** When the subject has state, [remove_id] raises [NameError] and leaves
    the backend and the files as they were. *)
Lemma remove_id_existing u st value_server :
  accounts (self st) !! server_id u = Some value_server →
  is_Some (value_server !! user_id u) →
  remove_id u st = (st, inl NameError).
Proof.
  intros Hs Hu. unfold remove_id, mbind, M_bind, bind, get. simpl.
  rewrite Hs. by rewrite decide_True.
Qed.

Lemma in_backend_unchanged {A} (m : M BackendState A) t e :
  m {| self := backend t; files := disk_files t |}
  = ({| self := backend t; files := disk_files t |}, inl e) →
  in_backend m t = (t, inl e).
Proof.
  intros Hm. unfold in_backend, zoom. rewrite Hm. simpl. by destruct t.
Qed.

Lemma Tracker_remove_id_existing u t value_server :
  accounts (backend t) !! server_id u = Some value_server →
  is_Some (value_server !! user_id u) →
  Tracker_remove_id u t = (t, inl NameError).
Proof.
  intros Hs Hu. apply in_backend_unchanged.
  by eapply remove_id_existing.
Qed.


End BackendFacts.

(** C6: the tracker that registered [Steps] and incremented it by 100 for
    the user holds the user's instance, with progress 100;
    [remove_id(user)] on it raises [NameError], and the tracker, and with it
    the user's instance, is as before. *)
Theorem remove_id_keeps_the_subject :
  store_lookup "7" "42" "Steps" (accounts (backend tracker_at_100))
  = Some (Inst (steps_at 100)) ∧
  Tracker_remove_id sample_user tracker_at_100
  = (tracker_at_100, inl NameError) ∧
  store_lookup "7" "42" "Steps"
    (accounts (backend (fst (Tracker_remove_id sample_user tracker_at_100))))
  = Some (Inst (steps_at 100)).
Proof.
  assert (Hrm : Tracker_remove_id sample_user tracker_at_100
                = (tracker_at_100, inl NameError)).
  { eapply Tracker_remove_id_existing.
    - vm_compute. reflexivity.
    - vm_compute. eauto. }
  split; [by vm_compute|]. split; [exact Hrm|].
  rewrite Hrm. by vm_compute.
Qed.

(** C1: the backend of that tracker holds progress 100 for the user under
    [Steps].  [_save_loyalty()] returns; a backend constructed on the saved
    file holds under the same keys the string ["S"], the first character
    of the name, which is no instance and carries no progress; and
    [_load_loyalty] on the saved file raises [KeyError]. *)
Theorem save_then_reload_loses_progress :
  progress <$> store_lookup "7" "42" "Steps" (accounts (self backend_at_100))
  = Some (Some 100) ∧
  snd (_save_loyalty backend_at_100) = inr tt ∧
  match reloaded with
  | inr b =>
      store_lookup "7" "42" "Steps" (accounts b) = Some (Raw (JStr "S")) ∧
      progress <$> store_lookup "7" "42" "Steps" (accounts b) = Some None ∧
      snd (_load_loyalty sample_path Steps
             {| self := b; files := files saved_at_100 |}) = inl KeyError
  | inl _ => False
  end.
Proof. vm_compute. repeat split. Qed.

(** ** Signals sent by the tracker *)

Section CheckSignals.

Implicit Types (t : AchievementTracker) (a old new : Achievement) (u : User).

(** The signals [_check_signals] sends and what it returns; it never
    raises. *)
Lemma check_signals_spec tid a old_level old_achieved t :
  let new_goals := filter (λ g, g ∉ old_achieved) (achieved a) in
  let evs :=
    (if decide (old_level < fst (current a))
     then [level_increased tid a] else []) ++
    (if decide (old_achieved ≠ achieved a)
     then goal_achieved tid a new_goals ::
          (if decide (unachieved a = [])
           then [highest_level_achieved tid a] else [])
     else []) in
  ∃ t',
    _check_signals tid a old_level old_achieved t
    = (t', inr (if decide (old_achieved ≠ achieved a)
                then NewGoals new_goals else PyFalse)) ∧
    emitted t' = emitted t ++ evs.
Proof.
  intros new_goals evs. subst evs new_goals.
  unfold _check_signals, mbind, M_bind, bind, emit, modify, ret. simpl.
  repeat case_decide; simpl; eexists; (split; [reflexivity|]); simpl;
    by rewrite <- ?app_assoc, ?app_nil_r.
Qed.

Lemma filter_in_ext (P Q : Goal → Prop)
    `{!∀ g, Decision (P g)} `{!∀ g, Decision (Q g)} (gs : list Goal) :
  (∀ g, g ∈ gs → P g ↔ Q g) → filter P gs = filter Q gs.
Proof.
  induction gs as [|g gs IH]; intros Hiff; [done|].
  rewrite !filter_cons.
  rewrite IH by (intros h Hh; apply Hiff; by right).
  destruct (decide (P g)) as [HP|HP], (decide (Q g)) as [HQ|HQ]; try done;
    exfalso; apply (Hiff g) in HP || apply (Hiff g) in HQ; done || by left.
Qed.



(** The instance's methods behind the mutations change the counter only. *)
Lemma apply_mutation_goals m old new :
  apply_mutation m old = inr new → goals new = goals old.
Proof.
  destruct m as [amount|args|l]; simpl.
  - by intros [= <-].
  - unfold evaluate. destruct (cls_evaluate (a_class old)).
    + by intros [= <-].
    + destruct args as [|? [|? ?]]; try done. by intros [= <-].
  - by intros [= <-].
Qed.

Lemma as_instance_inv e t t' a :
  as_instance e t = (t', inr a) → e = Inst a ∧ t' = t.
Proof. destruct e; [|done]. by intros [= <- <-]. Qed.

(** The lines after the instance's method and before the check: the store
    is written and no signal is sent. *)
Lemma persist_inv {B} u r new (rest : M AchievementTracker B) t1 t' (y : B) :
  bind (mutate_in_place u r new) (λ _,
    bind (in_backend (set_level_for_id u (a_class new) (fst (current new))))
      (λ _, rest)) t1 = (t', inr y) →
  ∃ t2, emitted t2 = emitted t1 ∧ rest t2 = (t', inr y).
Proof.
  intros H.
  apply bind_inr in H as (ta & [] & Ha & H).
  apply bind_inr in H as (tb & [] & Hb & H).
  exists tb. split; [|done].
  pose proof (keeps_emitted_in_backend
    (set_level_for_id u (a_class new) (fst (current new))) ta) as Eb.
  rewrite Hb in Eb. simpl in Eb. rewrite Eb.
  unfold mutate_in_place in Ha.
  pose proof (keeps_emitted_in_backend
    (modify (λ st, set_accounts
       (store_set (server_id u) (user_id u) (ref_name r) (Inst new)
          (accounts (self st))) st)) t1) as Ea.
  by rewrite Ha in Ea.
Qed.

(** A mutation that returns has fetched an instance, called its method and
    checked the signals against the snapshot. *)
Lemma mutate_inv m u r t t' res :
  Tracker_mutate m u r t = (t', inr res) →
  ∃ t1 t2 old new cr,
    Tracker_achievement_for_id u r t = (t1, inr (Inst old)) ∧
    apply_mutation m old = inr new ∧
    emitted t2 = emitted t ∧
    _check_signals (user_id u) new (fst (current old)) (achieved old) t2
    = (t', inr cr) ∧
    (∀ amount, m = MIncrement amount → res = RCheck cr).
Proof.
  intros H.
  assert (Hfetch : ∀ t1 e, Tracker_achievement_for_id u r t = (t1, inr e) →
                           emitted t1 = emitted t).
  { intros t1 e He. pose proof (keeps_emitted_achievement_for_id u r t) as E.
    by rewrite He in E. }
  destruct m as [amount|args|l];
    unfold Tracker_mutate, Tracker_increment, Tracker_evaluate,
      Tracker_set_level, mbind, M_bind in H;
    apply bind_inr in H as (tz & x & H & Hret);
    apply bind_inr in H as (t1 & e & He & H);
    apply bind_inr in H as (t1' & old & [-> ->]%as_instance_inv & H).
  - apply persist_inv in H as (t2 & E2 & H).
    injection Hret as <- <-.
    exists t1, t2, old, (increment amount old), x.
    split_and!; [done|done| |done|by intros ? [= <-]].
    rewrite E2. by eapply Hfetch.
  - destruct (evaluate args old) as [err|[new result]] eqn:Hev; [done|].
    apply persist_inv in H as (t2 & E2 & H).
    apply bind_inr in H as (t3 & cr & Hc & [= <- <-]).
    injection Hret as <- <-.
    exists t1, t2, old, new, cr.
    split_and!; [done| | |done|done].
    + simpl. by rewrite Hev.
    + rewrite E2. by eapply Hfetch.
  - apply persist_inv in H as (t2 & E2 & H).
    apply bind_inr in H as (t3 & cr & Hc & [= <- <-]).
    injection Hret as <- <-.
    exists t1, t2, old, (set_level l old), cr.
    split_and!; [done|done| |done|done].
    rewrite E2. by eapply Hfetch.
Qed.


End CheckSignals.



(** ** More on instances *)

Section Instances.

Implicit Types (a : Achievement) (gs : list Goal) (g : Goal).

(** X1: [increment(amount)] followed by [increment(-amount)] gives the
    instance back, and with it [current], [achieved] and [unachieved]. *)
Theorem increment_then_back a (amount : Z) :
  increment (- amount) (increment amount a) = a ∧
  achieved (increment (- amount) (increment amount a)) = achieved a ∧
  unachieved (increment (- amount) (increment amount a)) = unachieved a.
Proof.
  assert (H : increment (- amount) (increment amount a) = a).
  { destruct a as [c cur gs]. unfold increment, with_current. simpl.
    f_equal. lia. }
  by rewrite H.
Qed.

Lemma head_filter_sorted_min (c : Z) gs g :
  StronglySorted level_le gs →
  head (filter (λ g, c < level g) gs) = Some g →
  g ∈ gs ∧ c < level g ∧ ∀ h, h ∈ gs → c < level h → level g <= level h.
Proof.
  induction 1 as [|x gs Hs IH Hall]; [done|].
  rewrite filter_cons. destruct (decide (c < level x)) as [Hx|Hx]; simpl.
  - intros [= <-]. split; [by left|]. split; [done|].
    intros h [->|Hh]%elem_of_cons _; [lia|].
    eapply Forall_forall in Hall; [exact Hall|done].
  - intros Hhead. destruct (IH Hhead) as (Hin & Hlt & Hmin).
    split; [by right|]. split; [done|].
    intros h [->|Hh]%elem_of_cons Hc; [lia|by apply Hmin].
Qed.

(** X2: on an instance built by the constructor and method calls, the goal
    [current] returns is a goal above the counter of the least level among
    those; it returns no goal only when every goal is achieved.  The name
    and description views are those of that goal. *)
Theorem current_is_lowest_unmet
    (cls : AchievementClass) (c0 : Z) (ms : list method) :
  let a := calls (init cls c0) ms in
  fst (current a) = _current a ∧
  match snd (current a) with
  | Some g =>
      g ∈ goals a ∧ _current a < level g ∧
      (∀ h, h ∈ goals a → _current a < level h → level g <= level h) ∧
      achieved a ≠ goals a
  | None => achieved a = goals a
  end ∧
  current_name a = name <$> snd (current a) ∧
  current_description a = description <$> snd (current a).
Proof.
  intros a. split; [done|]. split; [|done].
  pose proof (instance_sorted cls c0 ms) as Hs. fold a in Hs.
  pose proof (sorted_split (_current a) (goals a) Hs) as Hsplit.
  fold (achieved a) (unachieved a) in Hsplit.
  destruct (snd (current a)) as [g|] eqn:Hcur; simpl in Hcur.
  - destruct (head_filter_sorted_min (_current a) (goals a) g Hs Hcur)
      as (Hin & Hlt & Hmin).
    split_and!; [done|done|done|].
    intros Hall. rewrite Hall in Hsplit.
    apply (f_equal length) in Hsplit. rewrite length_app in Hsplit.
    assert (unachieved a = []) as Hnil by (apply length_zero_iff_nil; lia).
    by rewrite Hnil in Hcur.
  - apply head_None in Hcur.
    by rewrite Hcur, app_nil_r in Hsplit.
Qed.

Lemma filter_le_prefix (c c' : Z) gs :
  StronglySorted level_le gs → c <= c' →
  filter (λ g, c >= level g) gs `prefix_of` filter (λ g, c' >= level g) gs.
Proof.
  intros Hs Hle. induction Hs as [|x gs Hs IH Hall]; [done|].
  rewrite !filter_cons.
  destruct (decide (c >= level x)) as [Hx|Hx].
  - rewrite decide_True by lia. by apply prefix_cons.
  - rewrite (filter_none (λ g, c >= level g) gs); [apply prefix_nil|].
    eapply Forall_impl; [exact Hall|]. unfold level_le. intros; lia.
Qed.

(** X3: on an instance built by the constructor and method calls, [achieved]
    is an initial segment of the goals, and a counter that is not lower
    gives an [achieved] that extends it. *)
Theorem achieved_grows_with_level
    (cls : AchievementClass) (c0 : Z) (ms : list method) (c c' : Z) :
  let a := calls (init cls c0) ms in
  achieved (set_level c a) `prefix_of` goals a ∧
  achieved (set_level c a) `prefix_of` achieved (set_level (Z.max c c') a).
Proof.
  intros a. split.
  - exists (unachieved (set_level c a)).
    rewrite achieved_set_level, unachieved_set_level.
    symmetry. apply sorted_split, instance_sorted.
  - rewrite !achieved_set_level.
    apply filter_le_prefix; [apply instance_sorted|lia].
Qed.

Lemma sorted_append_position gs g :
  StronglySorted level_le gs →
  sorted_by_level (gs ++ [g])
  = filter (λ h, level g >= level h) gs ++
    g :: filter (λ h, level g < level h) gs.
Proof.
  induction 1 as [|x gs Hs IH Hall]; [done|].
  simpl. rewrite IH. rewrite !filter_cons.
  destruct (decide (level g >= level x)) as [Hx|Hx].
  - rewrite decide_False by lia. simpl.
    apply insert_by_level_head. apply Forall_app. split.
    + apply Forall_forall. intros h [_ Hh]%list_elem_of_filter.
      eapply Forall_forall in Hall; [exact Hall|done].
    + constructor; [unfold level_le; lia|].
      apply Forall_forall. intros h [_ Hh]%list_elem_of_filter.
      eapply Forall_forall in Hall; [exact Hall|done].
  - rewrite decide_True by lia.
    rewrite (filter_none (λ h, level g >= level h) gs), filter_all.
    + simpl. destruct (Z.leb_spec (level x) (level g)); [lia|].
      by rewrite insert_by_level_head.
    + eapply Forall_impl; [exact Hall|]. unfold level_le. intros; lia.
    + eapply Forall_impl; [exact Hall|]. unfold level_le. intros; lia.
Qed.

(** X4: on an instance built by the constructor and method calls,
    [add_goal] puts the new goal after every goal whose level is lower or
    the same and before every goal whose level is higher; the other goals
    keep their order. *)
Theorem add_goal_position
    (cls : AchievementClass) (c0 : Z) (ms : list method)
    (l : Z) (n d : string) :
  let a := calls (init cls c0) ms in
  goals (add_goal l n d a)
  = filter (λ h, l >= level h) (goals a) ++
    mkGoal l n d :: filter (λ h, l < level h) (goals a).
Proof.
  intros a. apply (sorted_append_position (goals a) (mkGoal l n d)).
  apply instance_sorted.
Qed.

(** X5: on an instance built by the constructor and method calls, when no
    goal has the name [n] or the level [l], adding a goal with them and
    removing it by them gives the instance back. *)
Theorem add_then_remove_goal
    (cls : AchievementClass) (c0 : Z) (ms : list method)
    (l : Z) (n d : string) :
  let a := calls (init cls c0) ms in
  (∀ g, g ∈ goals a → name g ≠ n ∧ level g ≠ l) →
  remove_goal n l (add_goal l n d a) = a.
Proof.
  intros a Hfree.
  pose proof (instance_sorted cls c0 ms) as Hs. fold a in Hs.
  assert (Hkeep : ∀ (P : Goal → Prop) `{!∀ g, Decision (P g)},
            filter (λ g, ¬ matches n l g) (filter P (goals a))
            = filter P (goals a)).
  { intros P ?. apply filter_all, Forall_forall.
    intros g [_ Hg]%list_elem_of_filter. unfold matches.
    destruct (Hfree g Hg). tauto. }
  unfold remove_goal.
  replace (goals (add_goal l n d a))
    with (filter (λ h, l >= level h) (goals a) ++
          mkGoal l n d :: filter (λ h, l < level h) (goals a))
    by (symmetry; apply (sorted_append_position (goals a) (mkGoal l n d)); done).
  rewrite filter_app, filter_cons_False, !Hkeep
    by (unfold matches; simpl; tauto).
  rewrite sorted_split by done.
  rewrite sorted_by_level_id by done.
  by destruct a.
Qed.

End Instances.

(** A new [Steps] instance: a goal at level 50 named "fifty" is added, then
    removed. *)
Lemma add_then_remove_goal_witness :
  remove_goal "fifty" 50 (add_goal 50 "fifty" "half way" (steps_at 0))
  = steps_at 0.
Proof.
  apply (add_then_remove_goal Steps 0 [] 50 "fifty" "half way").
  intros g Hg. vm_compute in Hg.
  apply elem_of_cons in Hg as [->|Hg]; [by vm_compute|].
  apply list_elem_of_singleton in Hg as ->. by vm_compute.
Defined.

(** ** More on the registry *)

Section RegistryMore.

Implicit Types (t : AchievementTracker) (c : AchievementClass).

Lemma list_remove_NoDup c l :
  NoDup l → NoDup (list_remove c l) ∧ c ∉ list_remove c l.
Proof.
  induction l as [|y l IH]; simpl.
  - intros _. split; [constructor|]. by intros ?%elem_of_nil.
  - intros [Hy Hl]%NoDup_cons. destruct (decide (y = c)) as [->|Hne]; [done|].
    destruct (IH Hl) as [Hnd Hnot]. split.
    + apply NoDup_cons. split; [|done].
      intros Hin. by apply Hy, (list_remove_subseteq c).
    + intros [->|Hin]%elem_of_cons; done.
Qed.

Lemma list_remove_last c l : c ∉ l → list_remove c (l ++ [c]) = l.
Proof.
  induction l as [|y l IH]; simpl.
  - intros _. by rewrite decide_True.
  - intros [Hne Hnot]%not_elem_of_cons.
    rewrite decide_False by done. by rewrite IH.
Qed.

Lemma register_one_NoDup c t :
  NoDup (_registry t) → NoDup (_registry (fst (register_one c t))).
Proof.
  intros Hnd. unfold register_one, mbind, M_bind, bind, get. simpl.
  repeat case_decide; simpl; try done.
  apply NoDup_app. split; [done|]. split; [|apply NoDup_singleton].
  by intros x Hx ->%list_elem_of_singleton.
Qed.

Lemma register_NoDup l t :
  NoDup (_registry t) → NoDup (_registry (fst (for_each l register_one t))).
Proof.
  revert t. induction l as [|c l IH]; intros t Hnd; simpl; [done|].
  unfold bind. pose proof (register_one_NoDup c t Hnd) as H1.
  destruct (register_one c t) as [t1 [e|[]]]; [done|]. by apply IH.
Qed.

Lemma unregister_NoDup l t :
  NoDup (_registry t) →
  NoDup (_registry (fst (unregister (Iterable l) t))).
Proof.
  unfold unregister. simpl.
  revert t. induction l as [|c l IH]; intros t Hnd; simpl; [done|].
  unfold mbind, M_bind, bind, get, modify, raise. simpl.
  case_decide; simpl; [|done].
  apply (IH (set_registry (list_remove c (_registry t)) t)). simpl.
  by apply list_remove_NoDup.
Qed.

Lemma run_calls_NoDup t cs :
  NoDup (_registry t) → NoDup (_registry (run_calls t cs)).
Proof.
  revert t. induction cs as [|call cs IH]; intros t Hnd; [done|].
  apply IH. destruct call as [arg|arg|u r|m u r|u]; simpl.
  - by apply register_NoDup.
  - destruct arg as [c|l];
      [apply (unregister_NoDup [c])|apply unregister_NoDup]; done.
  - by rewrite keeps_registry_achievement_for_id.
  - by rewrite keeps_registry_mutate.
  - unfold Tracker_remove_id. by rewrite keeps_registry_in_backend.
Qed.

Lemma unregister_one_class c t :
  unregister (OneClass c) t
  = if decide (c ∈ _registry t)
    then (set_registry (list_remove c (_registry t)) t, inr tt)
    else (t, inl NotRegistered).
Proof.
  unfold unregister. simpl.
  unfold mbind, M_bind, bind, get, modify, raise, ret. simpl.
  by case_decide.
Qed.

(** X11: on a tracker built by the constructor and any method calls, the
    registry holds no class twice, and after [unregister] of a class,
    whether it returned or raised, the class is not registered. *)
Theorem registry_has_no_duplicates
    (b : AchievementBackend) (d : disk) (cs : list tracker_call) c :
  let t := run_calls (fresh_tracker b d) cs in
  NoDup (_registry t) ∧
  is_registered c (fst (unregister (OneClass c) t)) = false.
Proof.
  intros t.
  assert (Hnd : NoDup (_registry t)) by (apply run_calls_NoDup; constructor).
  split; [done|]. unfold is_registered. apply bool_decide_eq_false.
  rewrite unregister_one_class. case_decide; simpl; [|done].
  by apply list_remove_NoDup.
Qed.

(** X12: a class with a category that is not registered and is not the base
    class is appended to the registry by [register], and [unregister]
    right after gives the tracker back. *)
Theorem register_then_unregister c t :
  category c ≠ EmptyString →
  c ∉ _registry t →
  c ≠ Achievement_class →
  ∃ t1,
    register (OneClass c) t = (t1, inr tt) ∧
    _registry t1 = _registry t ++ [c] ∧
    is_registered c t1 = true ∧
    unregister (OneClass c) t1 = (t, inr tt).
Proof.
  intros Hcat Hnot Hbase.
  exists (set_registry (_registry t ++ [c]) t).
  split_and!.
  - rewrite register_one_class.
    unfold register_one, mbind, M_bind, bind, get, modify. simpl.
    by rewrite !decide_False, decide_True by done.
  - done.
  - apply bool_decide_eq_true. simpl. apply elem_of_app. right. by left.
  - rewrite unregister_one_class. simpl.
    rewrite decide_True by (apply elem_of_app; right; by left).
    rewrite list_remove_last by done. by destruct t.
Qed.

(** X13: [unregister] of a class that is not registered raises
    [NotRegistered] and changes nothing; on a tracker built by the
    constructor and any method calls this is what [unregister(Achievement)]
    does, also right after [register(Achievement)] returned. *)
Theorem unregister_base_class_raises
    (b : AchievementBackend) (d : disk) (cs : list tracker_call) :
  let t := run_calls (fresh_tracker b d) cs in
  unregister (OneClass Achievement_class) t = (t, inl NotRegistered) ∧
  unregister (OneClass Achievement_class)
    (fst (register (OneClass Achievement_class) t))
  = (t, inl NotRegistered).
Proof.
  intros t.
  assert (Hnot : Achievement_class ∉ _registry t)
    by apply base_not_registered, built_tracker_ok.
  assert (Hun : unregister (OneClass Achievement_class) t
                = (t, inl NotRegistered)).
  { rewrite unregister_one_class. by rewrite decide_False. }
  split; [done|].
  by rewrite register_one_class, register_one_base.
Qed.

End RegistryMore.

(** [register(Steps)] then [unregister(Steps)] on a new tracker. *)
Lemma register_then_unregister_witness :
  ∃ t1,
    register (OneClass Steps) new_tracker = (t1, inr tt) ∧
    _registry t1 = _registry new_tracker ++ [Steps] ∧
    is_registered Steps t1 = true ∧
    unregister (OneClass Steps) t1 = (new_tracker, inr tt).
Proof.
  apply (register_then_unregister Steps new_tracker).
  - discriminate.
  - vm_compute. by intros ?%elem_of_nil.
  - discriminate.
Defined.

(** ** More on signals *)

Section Signals.

Context {K V E W : Type}.
Implicit Types (s : Signal K V E W) (r : receiver K V E W).

Lemma make_lookup_key_sender (target sender : pyobj) dispatch_uid :
  snd (make_lookup_key target sender dispatch_uid) = _make_id sender.
Proof. by destruct dispatch_uid as [[|? ?]|]. Qed.

Lemma delete_first_absent key (l : list (lookup_key * receiver K V E W)) :
  key ∉ (fst <$> l) → delete_first key l = l.
Proof.
  induction l as [|[k r] l IH]; [done|]. simpl.
  intros Hnot. apply not_elem_of_cons in Hnot as [Hne Hnot].
  rewrite decide_False by done. by rewrite IH.
Qed.

Lemma delete_first_last key r (l : list (lookup_key * receiver K V E W)) :
  key ∉ (fst <$> l) → delete_first key (l ++ [(key, r)]) = l.
Proof.
  induction l as [|[k r'] l IH]; simpl.
  - intros _. by rewrite decide_True.
  - intros Hnot. apply not_elem_of_cons in Hnot as [Hne Hnot].
    rewrite decide_False by done. by rewrite IH.
Qed.

Lemma delete_first_keys key (l : list (lookup_key * receiver K V E W)) :
  NoDup (fst <$> l) →
  NoDup (fst <$> delete_first key l) ∧ key ∉ (fst <$> delete_first key l).
Proof.
  induction l as [|[k r] l IH]; simpl.
  - intros _. split; [constructor|]. by intros ?%elem_of_nil.
  - intros [Hk Hl]%NoDup_cons. destruct (decide (k = key)) as [->|Hne].
    + done.
    + destruct (IH Hl) as [Hnd Hnot]. simpl. split.
      * apply NoDup_cons. split; [|done].
        intros Hin. apply Hk.
        clear -Hin. induction l as [|[k' r'] l IH]; [done|].
        simpl in Hin. destruct (decide (k' = key)).
        -- simpl. by right.
        -- simpl in *. apply elem_of_cons in Hin as [->|Hin];
             [by left|right; by apply IH].
      * intros [->|Hin]%elem_of_cons; done.
Qed.

Lemma connect_keys r sender uid s :
  NoDup (fst <$> receivers s) →
  NoDup (fst <$> receivers (connect r sender uid s)).
Proof.
  intros Hnd. unfold connect. case_decide; [done|]. simpl.
  rewrite fmap_app. apply NoDup_app. split; [done|]. split.
  - intros k Hk ->%list_elem_of_singleton. done.
  - apply NoDup_singleton.
Qed.

Lemma built_signal_keys (cs : list (signal_call K V E W)) :
  NoDup (fst <$> receivers (run_signal_calls Signal_init cs)).
Proof.
  unfold run_signal_calls.
  assert (H0 : NoDup (fst <$> receivers (@Signal_init K V E W)))
    by constructor.
  revert H0. generalize (@Signal_init K V E W).
  induction cs as [|c cs IH]; intros s Hs; [done|]. simpl. apply IH.
  destruct c as [r sender uid|r sender uid]; simpl.
  - by apply connect_keys.
  - by apply delete_first_keys.
Qed.

(** X6: a signal built from [Signal()] by [connect] and [disconnect] never
    holds a lookup key twice; connecting a second time with the same
    receiver, sender and [dispatch_uid] changes nothing; and after
    [disconnect] the key is not registered any more. *)
Theorem signal_keys_unique
    (cs : list (signal_call K V E W)) r (target sender : pyobj)
    (dispatch_uid : option string) :
  let s := run_signal_calls Signal_init cs in
  NoDup (fst <$> receivers s) ∧
  connect r sender dispatch_uid (connect r sender dispatch_uid s)
  = connect r sender dispatch_uid s ∧
  make_lookup_key target sender dispatch_uid
  ∉ (fst <$> receivers (disconnect target sender dispatch_uid s)).
Proof.
  intros s. split; [apply built_signal_keys|]. split.
  - unfold connect at 2 3. case_decide as Hin.
    + unfold connect. by rewrite decide_True.
    + unfold connect. simpl. rewrite decide_True; [done|].
      rewrite fmap_app. apply elem_of_app. right. by left.
  - apply delete_first_keys, built_signal_keys.
Qed.

(** X7: when the lookup key is not registered, [disconnect] changes
    nothing, and [connect] followed by [disconnect] with the same
    arguments gives the signal back. *)
Theorem disconnect_undoes_connect r sender dispatch_uid s :
  make_lookup_key (r_target r) sender dispatch_uid ∉ (fst <$> receivers s) →
  disconnect (r_target r) sender dispatch_uid s = s ∧
  disconnect (r_target r) sender dispatch_uid
    (connect r sender dispatch_uid s) = s.
Proof.
  intros Hnot. destruct s as [l]. unfold disconnect, connect. simpl in *.
  split.
  - by rewrite delete_first_absent.
  - rewrite decide_False by done. simpl. by rewrite delete_first_last.
Qed.

(** X8: which receivers a sender reaches after [connect]: the ones it
    reached before and, when the key was not registered yet and the
    receiver was connected for every sender ([None]) or for this one, the
    new receiver, last. *)
Theorem receivers_after_connect r (connected_for sender : pyobj)
    dispatch_uid s :
  _receivers (connect r connected_for dispatch_uid s) sender
  = _receivers s sender ++
    (if decide ((make_lookup_key (r_target r) connected_for dispatch_uid
                   ∉ (fst <$> receivers s)) ∧
                (connected_for = PyNone ∨
                 _make_id connected_for = _make_id sender))
     then [r] else []).
Proof.
  unfold _receivers, connect.
  destruct (decide (make_lookup_key (r_target r) connected_for dispatch_uid
                      ∈ (fst <$> receivers s))) as [Hin|Hnot].
  - rewrite decide_False by tauto. by rewrite app_nil_r.
  - simpl. rewrite filter_app, fmap_app. f_equal.
    rewrite filter_cons, filter_nil. simpl.
    rewrite make_lookup_key_sender.
    assert (_make_id connected_for = NONE_ID ↔ connected_for = PyNone)
      as Hnone by (destruct connected_for; split; done).
    destruct (decide (_make_id connected_for = NONE_ID ∨
                      _make_id connected_for = _make_id sender)) as [Hs|Hs].
    + rewrite decide_True; [done|]. split; [done|].
      destruct Hs as [Hs|Hs]; [left; by apply Hnone|by right].
    + rewrite decide_False; [done|]. intros [_ [Hs'|Hs']]; apply Hs.
      * left. by apply Hnone.
      * by right.
Qed.

Lemma send_loop_stops (pre post : list (receiver K V E W)) r sender named e :
  (∀ r' w, r' ∈ pre → ∃ v, snd (r_call r' sender named w) = Returned v) →
  (∀ w, snd (r_call r sender named w) = RaisedException e ∨
        snd (r_call r sender named w) = RaisedBaseException e) →
  ∀ responses (d : W * list pyobj),
  ∃ w', send_loop (pre ++ r :: post) sender named responses d
        = ((w', snd d ++ (r_target <$> pre) ++ [r_target r]), inl e).
Proof.
  intros Hpre Hr. induction pre as [|p pre IH]; intros responses [w log].
  - simpl. rewrite invoke_spec.
    destruct (Hr w) as [-> | ->]; by eexists.
  - cbn [app send_loop]. rewrite invoke_spec.
    destruct (Hpre p w) as [v ->]; [by left|].
    destruct (IH (λ r' w' Hin, Hpre r' w' (list_elem_of_further _ _ _ Hin))
                 (responses ++ [(p, v)])
                 (fst (r_call p sender named w), log ++ [r_target p]))
      as [w' ->].
    exists w'. simpl. by rewrite <- app_assoc.
Qed.

(** X9: [send] stops at the first receiver that raises: when the receivers
    before it return, the exception comes out of [send], the receivers up
    to and including the raising one have been called, in order, and the
    ones after it have not been called. *)
Theorem send_stops_at_first_failure
    s (sender : pyobj) (named : K) (w : W)
    (pre post : list (receiver K V E W)) r (e : E) :
  _receivers s sender = pre ++ r :: post →
  (∀ r' w, r' ∈ pre → ∃ v, snd (r_call r' sender named w) = Returned v) →
  (∀ w, snd (r_call r sender named w) = RaisedException e ∨
        snd (r_call r sender named w) = RaisedBaseException e) →
  ∃ w', send s sender named (w, [])
        = ((w', (r_target <$> pre) ++ [r_target r]), inl e).
Proof.
  intros Hrs Hpre Hr. unfold send. rewrite Hrs.
  apply (send_loop_stops pre post r sender named e Hpre Hr [] (w, [])).
Qed.

(** X10: when no receiver raises outside [Exception], [send_robust] returns
    a response for every receiver the sender reaches, in the order of
    registration, and has called each of them, in that order. *)
Theorem send_robust_reaches_all s (sender : pyobj) (named : K) (w : W) :
  (∀ r w e, r ∈ _receivers s sender →
            snd (r_call r sender named w) ≠ RaisedBaseException e) →
  ∃ w' responses,
    send_robust s sender named (w, [])
    = ((w', r_target <$> _receivers s sender), inr responses) ∧
    fst <$> responses = _receivers s sender.
Proof.
  intros Hok.
  destruct (send_robust_loop_total (_receivers s sender) sender named
              [] (w, []) Hok) as (w' & responses & Heq & Hfst).
  by exists w', responses.
Qed.

End Signals.

(** The sample signal, whose first receiver raises: [send] calls it alone. *)
Lemma send_stops_at_first_failure_witness :
  ∃ w', send two_receivers (PyObject 7) tt (0%nat, [])
        = ((w', [r_target failing_receiver]), inl "boom").
Proof.
  apply (send_stops_at_first_failure two_receivers (PyObject 7) tt 0%nat
           [] [succeeding_receiver] failing_receiver "boom").
  - reflexivity.
  - intros r' w' Hin. by apply elem_of_nil in Hin.
  - intros w'. by left.
Defined.

(** The sample signal: neither receiver raises outside [Exception]. *)
Lemma send_robust_reaches_all_witness :
  ∃ w' responses,
    send_robust two_receivers (PyObject 7) tt (0%nat, [])
    = ((w', r_target <$> _receivers two_receivers (PyObject 7)),
       inr responses) ∧
    fst <$> responses = _receivers two_receivers (PyObject 7).
Proof.
  apply (send_robust_reaches_all two_receivers (PyObject 7) tt 0%nat).
  intros r w' e Hin. vm_compute in Hin.
  apply elem_of_cons in Hin as [->|Hin]; [discriminate|].
  apply list_elem_of_singleton in Hin as ->. discriminate.
Defined.

(** A new signal holds no key. *)
Lemma disconnect_undoes_connect_witness :
  disconnect (r_target failing_receiver) PyNone None
    (Signal_init (K:=unit) (V:=Z) (E:=string) (W:=nat)) = Signal_init ∧
  disconnect (r_target failing_receiver) PyNone None
    (connect failing_receiver PyNone None Signal_init) = Signal_init.
Proof.
  apply (disconnect_undoes_connect failing_receiver PyNone None Signal_init).
  vm_compute. by intros ?%elem_of_nil.
Defined.

(** ** More on the backend *)

Section Store.

Implicit Types (acc : store) (st : BackendState) (u : User) (e : entry).

Lemma store_lookup_set_eq server user name e acc :
  store_lookup server user name (store_set server user name e acc) = Some e.
Proof.
  unfold store_lookup, store_set. by rewrite !lookup_insert_eq.
Qed.

Lemma store_lookup_set_ne server user name e acc server' user' name' :
  (server', user', name') ≠ (server, user, name) →
  store_lookup server' user' name' (store_set server user name e acc)
  = store_lookup server' user' name' acc.
Proof.
  intros Hne. unfold store_lookup, store_set.
  destruct (decide (server = server')) as [<-|Hs];
    [|by rewrite lookup_insert_ne].
  rewrite lookup_insert_eq.
  destruct (decide (user = user')) as [<-|Hu].
  - rewrite lookup_insert_eq.
    rewrite lookup_insert_ne by congruence.
    destruct (acc !! server) as [vs|]; simpl; [|done].
    by destruct (vs !! user).
  - rewrite lookup_insert_ne by done.
    by destruct (acc !! server) as [vs|].
Qed.

(** What the three tests leave under every key: the entry that was there,
    and [fresh] under the key asked for when there was none. *)
Lemma store_lookup_ensure u name fresh acc server' user' name' :
  store_lookup server' user' name' (ensure_entry u name fresh acc)
  = if decide ((server', user', name') = (server_id u, user_id u, name))
    then Some (default fresh (store_lookup (server_id u) (user_id u) name acc))
    else store_lookup server' user' name' acc.
Proof.
  unfold ensure_entry.
  set (acc1 := if decide (is_Some (acc !! server_id u)) then acc
               else <[server_id u:=∅]> acc).
  assert (H1 : ∀ ks ku kn : string,
            store_lookup ks ku kn acc1 = store_lookup ks ku kn acc).
  { intros ks ku kn. subst acc1. case_decide as Hs; [done|].
    unfold store_lookup.
    destruct (decide (server_id u = ks)) as [<-|Hne].
    - rewrite lookup_insert_eq. apply eq_None_not_Some in Hs. by rewrite Hs.
    - by rewrite lookup_insert_ne. }
  set (acc2 := if decide (is_Some (default ∅ (acc1 !! server_id u) !! user_id u))
               then acc1
               else <[server_id u:=<[user_id u:=∅]> (default ∅ (acc1 !! server_id u))]> acc1).
  assert (H2 : ∀ ks ku kn : string,
            store_lookup ks ku kn acc2 = store_lookup ks ku kn acc).
  { intros ks ku kn. rewrite <- H1. subst acc2. case_decide as Hu; [done|].
    unfold store_lookup.
    destruct (decide (server_id u = ks)) as [<-|Hne];
      [|by rewrite lookup_insert_ne].
    rewrite lookup_insert_eq.
    apply eq_None_not_Some in Hu.
    destruct (decide (user_id u = ku)) as [<-|Hne'].
    - rewrite lookup_insert_eq, lookup_empty.
      destruct (acc1 !! server_id u) as [vs|]; simpl in *; [|done].
      by rewrite Hu.
    - rewrite lookup_insert_ne by done.
      destruct (acc1 !! server_id u) as [vs|]; simpl in *; [done|].
      by rewrite lookup_empty. }
  destruct (decide (is_Some (store_lookup (server_id u) (user_id u) name acc2)))
    as [Hsome|Hnone].
  - rewrite H2. case_decide as Hk; [|done].
    injection Hk as -> -> ->. rewrite H2 in Hsome.
    by destruct Hsome as [e ->].
  - apply eq_None_not_Some in Hnone. rewrite H2 in Hnone.
    case_decide as Hk.
    + injection Hk as -> -> ->. by rewrite store_lookup_set_eq, Hnone.
    + rewrite store_lookup_set_ne by done. apply H2.
Qed.



(** What a backend method that ends in [_save_loyalty] leaves in
    [accounts], whether the save returned or raised. *)
Lemma save_keeps_accounts st :
  accounts (self (fst (_save_loyalty st))) = accounts (self st).
Proof.
  unfold _save_loyalty, mbind, M_bind, bind, get. simpl.
  by case_decide.
Qed.

(** What [achievement_for_id] returns and leaves. *)
Lemma achievement_for_id_fetches_or_creates_lemma
    u (achievement : AchievementClass) st st' e :
  achievement_for_id u achievement st = (st', inr e) →
  store_lookup (server_id u) (user_id u) (cls_name achievement)
    (accounts (self st')) = Some e ∧
  e = default (Inst (init achievement 0))
        (store_lookup (server_id u) (user_id u) (cls_name achievement)
           (accounts (self st))) ∧
  ∀ server user name,
    (server, user, name) ≠ (server_id u, user_id u, cls_name achievement) →
    store_lookup server user name (accounts (self st'))
    = store_lookup server user name (accounts (self st)).
Proof.
  unfold achievement_for_id, mbind, M_bind.
  intros (st1 & [] & [= <-] & H)%bind_inr.
  apply bind_inr in H as (st2 & [] & Hsave & H).
  apply bind_inr in H as (st3 & st3' & [= <- <-] & H).
  pose proof (save_keeps_accounts
    (set_accounts (ensure_entry u (cls_name achievement)
       (Inst (init achievement 0)) (accounts (self st))) st)) as Hacc.
  rewrite Hsave in Hacc. simpl in Hacc.
  destruct (store_lookup _ _ _ (accounts (self st2))) as [e'|] eqn:Hl;
    [|done].
  injection H as <- <-. split; [done|].
  rewrite Hacc in Hl. rewrite store_lookup_ensure, decide_True in Hl by done.
  split; [congruence|].
  intros server user name Hne. rewrite Hacc, store_lookup_ensure.
  by rewrite decide_False.
Qed.

(** X15: [achievement_for_id], when it returns, returns the entry it leaves
    under the subject's key: the entry that was there, untouched, or a new
    instance at level 0 when there was none.  The entries under every other
    key are as before. *)
Theorem achievement_for_id_fetches_or_creates
    u (achievement : AchievementClass) st st' e :
  achievement_for_id u achievement st = (st', inr e) →
  store_lookup (server_id u) (user_id u) (cls_name achievement)
    (accounts (self st')) = Some e ∧
  e = default (Inst (init achievement 0))
        (store_lookup (server_id u) (user_id u) (cls_name achievement)
           (accounts (self st))) ∧
  ∀ server user name,
    (server, user, name) ≠ (server_id u, user_id u, cls_name achievement) →
    store_lookup server user name (accounts (self st'))
    = store_lookup server user name (accounts (self st)).
Proof. apply achievement_for_id_fetches_or_creates_lemma. Qed.

(** The only exception [_save_loyalty] raises. *)
Lemma save_raises_index_error st st' err :
  _save_loyalty st = (st', inl err) → err = IndexError.
Proof.
  unfold _save_loyalty, mbind, M_bind, bind, get. simpl.
  case_decide; [|done]. by intros [= _ <-].
Qed.

(** What [set_level_for_id] leaves. *)
Lemma set_level_for_id_sets_the_level_lemma
    u (achievement : AchievementClass) (l : Z) st :
  let key_entry := store_lookup (server_id u) (user_id u)
                     (cls_name achievement) in
  match set_level_for_id u achievement l st with
  | (st', inr _) =>
      (∃ a, key_entry (accounts (self st')) = Some (Inst (set_level l a)) ∧
            default (Inst (init achievement l)) (key_entry (accounts (self st)))
            = Inst a) ∧
      ∀ server user name,
        (server, user, name) ≠ (server_id u, user_id u, cls_name achievement) →
        store_lookup server user name (accounts (self st'))
        = store_lookup server user name (accounts (self st))
  | (st', inl err) =>
      match key_entry (accounts (self st)) with
      | Some (Raw _) => err = AttributeError ∧ files st' = files st
      | _ => err = IndexError
      end
  end.
Proof.
  intros key_entry. subst key_entry.
  unfold set_level_for_id, mbind, M_bind, bind, modify, get. simpl.
  rewrite store_lookup_ensure, decide_True by done.
  destruct (store_lookup _ _ _ (accounts (self st))) as [[a|j]|] eqn:Hl;
    simpl.
  - match goal with |- context [_save_loyalty ?s] =>
      pose proof (save_keeps_accounts s) as Hacc;
      pose proof (save_raises_index_error s) as Hsave;
      destruct (_save_loyalty s) as [st' [err|[]]] end.
    + by eapply Hsave.
    + simpl in Hacc. rewrite Hacc. split.
      * exists a. by rewrite store_lookup_set_eq.
      * intros server user name Hne.
        rewrite store_lookup_set_ne, store_lookup_ensure by done.
        by rewrite decide_False.
  - done.
  - match goal with |- context [_save_loyalty ?s] =>
      pose proof (save_keeps_accounts s) as Hacc;
      pose proof (save_raises_index_error s) as Hsave;
      destruct (_save_loyalty s) as [st' [err|[]]] end.
    + by eapply Hsave.
    + simpl in Hacc. rewrite Hacc. split.
      * exists (init achievement l). by rewrite store_lookup_set_eq.
      * intros server user name Hne.
        rewrite store_lookup_set_ne, store_lookup_ensure by done.
        by rewrite decide_False.
Qed.

(** X16: [set_level_for_id], when it returns, leaves under the subject's
    key an instance whose counter is the level: the instance that was
    there with the new counter, or a new one when there was none.  The
    entries under every other key are as before.  It raises
    [AttributeError], before saving, when the entry there is not an
    instance. *)
Theorem set_level_for_id_sets_the_level
    u (achievement : AchievementClass) (l : Z) st :
  let key_entry := store_lookup (server_id u) (user_id u)
                     (cls_name achievement) in
  match set_level_for_id u achievement l st with
  | (st', inr _) =>
      (∃ a, key_entry (accounts (self st')) = Some (Inst (set_level l a)) ∧
            default (Inst (init achievement l)) (key_entry (accounts (self st)))
            = Inst a) ∧
      ∀ server user name,
        (server, user, name) ≠ (server_id u, user_id u, cls_name achievement) →
        store_lookup server user name (accounts (self st'))
        = store_lookup server user name (accounts (self st))
  | (st', inl err) =>
      match key_entry (accounts (self st)) with
      | Some (Raw _) => err = AttributeError ∧ files st' = files st
      | _ => err = IndexError
      end
  end.
Proof. apply set_level_for_id_sets_the_level_lemma. Qed.

(** X17: after [wipe_achievements(server)], whether its save returned or
    raised, no entry is left under that server and the other servers are
    as before. *)
Theorem wipe_achievements_clears_the_server (server : string) st :
  let acc' := accounts (self (fst (wipe_achievements server st))) in
  acc' !! server = Some ∅ ∧
  (∀ user name, store_lookup server user name acc' = None) ∧
  (∀ server', server' ≠ server →
     acc' !! server' = accounts (self st) !! server').
Proof.
  intros acc'. subst acc'.
  unfold wipe_achievements, mbind, M_bind, bind, modify. simpl.
  match goal with |- context [_save_loyalty ?s] =>
    pose proof (save_keeps_accounts s) as Hacc;
    destruct (_save_loyalty s) as [st' [err|[]]] end;
    simpl in *; rewrite Hacc.
  - split_and!.
    + by rewrite lookup_insert_eq.
    + intros user name. unfold store_lookup. by rewrite lookup_insert_eq.
    + intros server' Hne. by rewrite lookup_insert_ne.
  - split_and!.
    + by rewrite lookup_insert_eq.
    + intros user name. unfold store_lookup. by rewrite lookup_insert_eq.
    + intros server' Hne. by rewrite lookup_insert_ne.
Qed.

End Store.

(** [achievement_for_id(user, Steps)] on the sample backend, where the user
    is at 100. *)
Lemma achievement_for_id_fetches_or_creates_witness :
  let st' := fst (achievement_for_id sample_user Steps backend_at_100) in
  store_lookup (server_id sample_user) (user_id sample_user) (cls_name Steps)
    (accounts (self st')) = Some (Inst (steps_at 100)) ∧
  Inst (steps_at 100)
  = default (Inst (init Steps 0))
      (store_lookup (server_id sample_user) (user_id sample_user)
         (cls_name Steps) (accounts (self backend_at_100))) ∧
  ∀ server user name,
    (server, user, name)
    ≠ (server_id sample_user, user_id sample_user, cls_name Steps) →
    store_lookup server user name (accounts (self st'))
    = store_lookup server user name (accounts (self backend_at_100)).
Proof.
  intros st'.
  apply (achievement_for_id_fetches_or_creates sample_user Steps
           backend_at_100 st' (Inst (steps_at 100))).
  vm_compute. reflexivity.
Defined.

(** ** Loading *)

Section Loading.

Implicit Types (st : BackendState).

(** A loop whose body raises [e] on the elements that are [bad], whatever
    the state, and returns on the others, raises [e] when some element is
    bad and returns otherwise. *)
Lemma for_each_outcome {S A} (l : list A) (body : A → M S unit) (e : exn)
    (bad : A → Prop) `{!∀ x, Decision (bad x)} :
  (∀ x s, x ∈ l → bad x → ∃ s', body x s = (s', inl e)) →
  (∀ x s, x ∈ l → ¬ bad x → ∃ s', body x s = (s', inr tt)) →
  ∀ s, ∃ s', for_each l body s
             = (s', if decide (Exists bad l) then inl e else inr tt).
Proof.
  induction l as [|x l IH]; intros Hbad Hok s; cbn [for_each].
  - exists s. rewrite decide_False; [done|]. by intros ?%Exists_nil.
  - unfold bind. destruct (decide (bad x)) as [Hx|Hx].
    + destruct (Hbad x s) as [s' ->]; [by left|done|].
      exists s'. rewrite decide_True; [done|]. by left.
    + destruct (Hok x s) as [s' ->]; [by left|done|].
      destruct (IH (λ y s0 Hy, Hbad y s0 (list_elem_of_further _ _ _ Hy))
                   (λ y s0 Hy, Hok y s0 (list_elem_of_further _ _ _ Hy)) s')
        as [s'' ->].
      exists s''. destruct (decide (Exists bad l)) as [Hl|Hl].
      * rewrite decide_True; [done|]. by right.
      * rewrite decide_False; [done|].
        intros [?|?]%Exists_cons; done.
Qed.

(** The innermost loop of [_load_loyalty] runs on a user dict that has just
    been emptied: its first step finds no entry. *)
Lemma load_inner_loop (l : list (string * entry)) key_server key_user
    (achievement : AchievementClass) st :
  (∀ n, store_lookup key_server key_user n (accounts (self st)) = None) →
  for_each l (λ '(key_achievement, _),
    bind get (λ st,
      match store_lookup key_server key_user key_achievement
              (accounts (self st)) with
      | None => raise KeyError
      | Some (Raw _) => raise AttributeError
      | Some (Inst a) =>
          modify (set_accounts
            (store_set key_server key_user key_achievement
               (Inst (init achievement (_current a))) (accounts (self st))))
      end)) st
  = (st, match l with [] => inr tt | _ :: _ => inl KeyError end).
Proof.
  intros Hnone. destruct l as [|[ka e] l]; [done|].
  cbn [for_each]. unfold bind, get. by rewrite Hnone.
Qed.

Lemma map_nonempty_lookup {A} (m : gmap string A) :
  m ≠ ∅ ↔ ∃ n, is_Some (m !! n).
Proof.
  split.
  - intros (n & x & Hn)%map_choose. exists n. by rewrite Hn.
  - intros (n & x & Hn) ->. by rewrite lookup_empty in Hn.
Qed.

Lemma Exists_map_to_list {A} (P : string * A → Prop) (m : gmap string A) :
  Exists P (map_to_list m) ↔ ∃ k x, m !! k = Some x ∧ P (k, x).
Proof.
  rewrite Exists_exists. split.
  - intros ([k x] & Hin%elem_of_map_to_list & HP). by exists k, x.
  - intros (k & x & Hk & HP). exists (k, x).
    split; [by apply elem_of_map_to_list|done].
Qed.

(** X18: [_load_loyalty] on a file that holds an entry for any subject
    raises [KeyError]; it returns only when the file holds no entry at
    all. *)
Theorem load_loyalty_raises_on_any_entry
    (path : string) (achievement : AchievementClass) st (f : json_file) :
  files st !! path = Some f →
  match snd (_load_loyalty path achievement st) with
  | inl err =>
      err = KeyError ∧
      ∃ server user name,
        is_Some (store_lookup server user name (raw_store f))
  | inr _ =>
      ∀ server user name, store_lookup server user name (raw_store f) = None
  end.
Proof.
  intros Hf.
  set (bad_user := λ p : string * gmap string entry, p.2 ≠ ∅).
  set (bad_server := λ p : string * gmap string (gmap string entry),
                       Exists bad_user (map_to_list p.2)).
  assert (Hcond : Exists bad_server (map_to_list (raw_store f)) ↔
                  ∃ server user name,
                    is_Some (store_lookup server user name (raw_store f))).
  { rewrite Exists_map_to_list. unfold bad_server, bad_user, store_lookup.
    split.
    - intros (ks & vs & Hs & (ku & vu & Hu & (n & Hn)%map_nonempty_lookup)
                              %Exists_map_to_list).
      exists ks, ku, n. simpl in *. by rewrite Hs, Hu.
    - intros (ks & ku & n & Hn).
      destruct (raw_store f !! ks) as [vs|] eqn:Hs; [|by destruct Hn].
      destruct (vs !! ku) as [vu|] eqn:Hu; [|by destruct Hn].
      exists ks, vs. split; [done|]. apply Exists_map_to_list.
      exists ku, vu. split; [done|]. apply map_nonempty_lookup. by exists n. }
  unfold _load_loyalty, mbind, M_bind, bind at 1, load_json. rewrite Hf.
  unfold bind at 1, modify at 1.
  match goal with |- context [for_each ?l ?body ?s] =>
    assert (∃ s', for_each l body s
                  = (s', if decide (Exists bad_server l)
                         then inl KeyError else inr tt)) as [st' Hrun];
      [apply (for_each_outcome l body KeyError bad_server)|] end.
  - (* a server that holds an entry *)
    intros [ks vs] s _ Hbad. unfold bind at 1, modify at 1.
    match goal with |- context [for_each ?l ?body ?s] =>
      assert (∃ s', for_each l body s
                    = (s', if decide (Exists bad_user l)
                           then inl KeyError else inr tt)) as [s' Heq];
        [apply (for_each_outcome l body KeyError bad_user)|] end.
    + intros [ku vu] s0 _ Hvu. unfold bind at 1, modify at 1.
      rewrite load_inner_loop.
      * eexists. destruct (map_to_list vu) eqn:Hl; [|done].
        apply map_to_list_empty_iff in Hl. done.
      * intros n. unfold store_lookup. simpl.
        by rewrite !lookup_insert_eq, lookup_empty.
    + intros [ku vu] s0 _ Hvu. unfold bind at 1, modify at 1.
      rewrite load_inner_loop.
      * eexists. apply dec_stable in Hvu. simpl in Hvu. subst vu.
        by rewrite map_to_list_empty.
      * intros n. unfold store_lookup. simpl.
        by rewrite !lookup_insert_eq, lookup_empty.
    + exists s'. rewrite Heq. by rewrite decide_True.
  - (* a server that holds none *)
    intros [ks vs] s _ Hok. unfold bind at 1, modify at 1.
    match goal with |- context [for_each ?l ?body ?s] =>
      assert (∃ s', for_each l body s
                    = (s', if decide (Exists bad_user l)
                           then inl KeyError else inr tt)) as [s' Heq];
        [apply (for_each_outcome l body KeyError bad_user)|] end.
    + intros [ku vu] s0 _ Hvu. unfold bind at 1, modify at 1.
      rewrite load_inner_loop.
      * eexists. destruct (map_to_list vu) eqn:Hl; [|done].
        apply map_to_list_empty_iff in Hl. done.
      * intros n. unfold store_lookup. simpl.
        by rewrite !lookup_insert_eq, lookup_empty.
    + intros [ku vu] s0 _ Hvu. unfold bind at 1, modify at 1.
      rewrite load_inner_loop.
      * eexists. apply dec_stable in Hvu. simpl in Hvu. subst vu.
        by rewrite map_to_list_empty.
      * intros n. unfold store_lookup. simpl.
        by rewrite !lookup_insert_eq, lookup_empty.
    + exists s'. rewrite Heq. by rewrite decide_False.
  - rewrite Hrun. simpl. case_decide as Hex.
    + split; [done|]. by apply Hcond.
    + intros server user name.
      apply eq_None_not_Some. intros Hsome. apply Hex, Hcond. eauto.
Qed.

End Loading.

(** The file saved by the sample backend holds the user's entry. *)
Lemma load_loyalty_raises_on_any_entry_witness :
  match snd (_load_loyalty sample_path Steps saved_at_100) with
  | inl err =>
      err = KeyError ∧
      ∃ server user name,
        is_Some (store_lookup server user name
                   (raw_store (to_save (accounts (self backend_at_100)))))
  | inr _ =>
      ∀ server user name,
        store_lookup server user name
          (raw_store (to_save (accounts (self backend_at_100)))) = None
  end.
Proof.
  apply (load_loyalty_raises_on_any_entry sample_path Steps saved_at_100
           (to_save (accounts (self backend_at_100)))).
  vm_compute. reflexivity.
Defined.

(** ** More on the tracker *)

Section TrackerMore.

Implicit Types (t : AchievementTracker) (old new : Achievement) (u : User).

Lemma check_signals_backend tid a old_level old_achieved t :
  backend (fst (_check_signals tid a old_level old_achieved t)) = backend t ∧
  disk_files (fst (_check_signals tid a old_level old_achieved t))
  = disk_files t.
Proof.
  unfold _check_signals, mbind, M_bind, bind, emit, modify, ret. simpl.
  by repeat case_decide.
Qed.

Lemma in_backend_inv {A} (m : M BackendState A) t t' (x : exn + A) :
  in_backend m t = (t', x) →
  ∃ st', m {| self := backend t; files := disk_files t |} = (st', x) ∧
         backend t' = self st' ∧ disk_files t' = files st' ∧
         _registry t' = _registry t ∧ emitted t' = emitted t.
Proof.
  unfold in_backend, zoom.
  destruct (m _) as [st' y]. intros [= <- <-]. by exists st'.
Qed.

(** What [achievement_for_id] of the tracker resolves the reference to: the
    first registered class of that name. *)
Lemma tracker_achievement_for_id_inv u (r : achievement_ref) t t1 e :
  Tracker_achievement_for_id u r t = (t1, inr e) →
  ∃ a0 st',
    head (filter (λ c, cls_name c = ref_name r) (_registry t)) = Some a0 ∧
    cls_name a0 = ref_name r ∧
    achievement_for_id u a0 {| self := backend t; files := disk_files t |}
    = (st', inr e) ∧
    backend t1 = self st' ∧ disk_files t1 = files st' ∧
    _registry t1 = _registry t ∧ emitted t1 = emitted t.
Proof.
  unfold Tracker_achievement_for_id, mbind, M_bind, bind, get. simpl.
  destruct (filter _ (_registry t)) as [|a0 rest] eqn:Hf; [done|].
  intros (st' & Hrun & Hb & Hd & Hr & He)%in_backend_inv.
  exists a0, st'. split_and!; try done.
  assert (a0 ∈ filter (λ c, cls_name c = ref_name r) (_registry t)) as Hin
    by (rewrite Hf; by left).
  by apply list_elem_of_filter in Hin as [? _].
Qed.

(** When [set_level_for_id] returns, the file holds what [_save_loyalty]
    makes of [accounts]. *)
Lemma set_level_for_id_saves u (achievement : AchievementClass) (l : Z)
    (st st' : BackendState) :
  set_level_for_id u achievement l st = (st', inr tt) →
  file_path (self st') = file_path (self st) ∧
  files st' !! file_path (self st') = Some (to_save (accounts (self st'))).
Proof.
  unfold set_level_for_id, mbind, M_bind, bind, modify, get. simpl.
  destruct (store_lookup _ _ _ _) as [[a|j]|]; [|done|done].
  unfold _save_loyalty, mbind, M_bind, bind, get, save_json, modify. simpl.
  case_decide; [done|]. intros [= <-]. simpl.
  by rewrite lookup_insert_eq.
Qed.

Lemma set_level_same a : set_level (_current a) a = a.
Proof. by destruct a. Qed.

(** The steps of a mutation that returns, with the states between them. *)
Lemma mutate_steps (m : mutation) u (r : achievement_ref) t t' res :
  Tracker_mutate m u r t = (t', inr res) →
  ∃ t1 ta t2 old new cr,
    Tracker_achievement_for_id u r t = (t1, inr (Inst old)) ∧
    apply_mutation m old = inr new ∧
    mutate_in_place u r new t1 = (ta, inr tt) ∧
    in_backend (set_level_for_id u (a_class new) (fst (current new))) ta
    = (t2, inr tt) ∧
    _check_signals (user_id u) new (fst (current old)) (achieved old) t2
    = (t', inr cr).
Proof.
  intros H.
  destruct m as [amount|args|l];
    unfold Tracker_mutate, Tracker_increment, Tracker_evaluate,
      Tracker_set_level, mbind, M_bind in H;
    apply bind_inr in H as (tz & x & H & Hret);
    apply bind_inr in H as (t1 & e & He & H);
    apply bind_inr in H as (t1' & old & [-> ->]%as_instance_inv & H).
  - apply bind_inr in H as (ta & [] & Ha & H).
    apply bind_inr in H as (t2 & [] & Hb & H).
    injection Hret as <- <-.
    by exists t1, ta, t2, old, (increment amount old), x.
  - destruct (evaluate args old) as [err|[new result]] eqn:Hev; [done|].
    apply bind_inr in H as (ta & [] & Ha & H).
    apply bind_inr in H as (t2 & [] & Hb & H).
    apply bind_inr in H as (t3 & cr & Hc & [= <- <-]).
    injection Hret as <- <-.
    exists t1, ta, t2, old, new, cr. split_and!; try done.
    simpl. by rewrite Hev.
  - apply bind_inr in H as (ta & [] & Ha & H).
    apply bind_inr in H as (t2 & [] & Hb & H).
    apply bind_inr in H as (t3 & cr & Hc & [= <- <-]).
    injection Hret as <- <-.
    by exists t1, ta, t2, old, (set_level l old), cr.
Qed.

(** X19: a mutation ([increment], [evaluate] or [set_level]) that returns
    has worked on the instance kept for the subject under the name of the
    first registered class of that name, or on a new instance at level 0
    when none was kept; it leaves the mutated instance under that key, the
    entries of every other subject as they were, the file holding what
    [_save_loyalty] makes of [accounts], and the registry unchanged. *)
Theorem mutation_is_persisted
    (m : mutation) u (r : achievement_ref) t t' (res : returned) :
  Tracker_mutate m u r t = (t', inr res) →
  ∃ a0 old new,
    head (filter (λ c, cls_name c = ref_name r) (_registry t)) = Some a0 ∧
    Inst old = default (Inst (init a0 0))
                 (store_lookup (server_id u) (user_id u) (ref_name r)
                    (accounts (backend t))) ∧
    apply_mutation m old = inr new ∧
    store_lookup (server_id u) (user_id u) (ref_name r)
      (accounts (backend t')) = Some (Inst new) ∧
    (∀ server user name, (server, user) ≠ (server_id u, user_id u) →
       store_lookup server user name (accounts (backend t'))
       = store_lookup server user name (accounts (backend t))) ∧
    disk_files t' !! file_path (backend t')
    = Some (to_save (accounts (backend t'))) ∧
    _registry t' = _registry t.
Proof.
  intros (t1 & ta & t2 & old & new & cr & Hfetch & Hmut & Ha & Hb & Hc)
           %mutate_steps.
  apply tracker_achievement_for_id_inv in Hfetch
    as (a0 & st1 & Hhead & Hname & Hrun & Hb1 & Hd1 & Hr1 & _).
  apply achievement_for_id_fetches_or_creates_lemma in Hrun
    as (Hl1 & Hold & Hother1).
  rewrite Hname in Hl1, Hold, Hother1.
  unfold mutate_in_place in Ha.
  apply in_backend_inv in Ha as (sta & Hruna & Hba & Hda & Hra & _).
  injection Hruna as <-. simpl in Hba, Hda.
  apply in_backend_inv in Hb as (st2 & Hrun2 & Hb2 & Hd2 & Hr2 & _).
  pose proof (set_level_for_id_saves _ _ _ _ _ Hrun2) as [Hpath Hfile].
  pose proof (set_level_for_id_sets_the_level_lemma u (a_class new)
                (fst (current new))
                {| self := backend ta; files := disk_files ta |}) as Hset.
  rewrite Hrun2 in Hset. destruct Hset as [(a & Hkey & Hdef) Hother2].
  destruct (check_signals_backend (user_id u) new (fst (current old))
              (achieved old) t2) as [Hb3 Hd3].
  rewrite Hc in Hb3, Hd3. simpl in Hb3, Hd3.
  exists a0, old, new. split_and!; try done.
  - rewrite Hb3, Hb2.
    destruct (decide (cls_name (a_class new) = ref_name r)) as [Heq|Hne].
    + rewrite Heq in Hkey, Hdef. rewrite Hkey.
      simpl in Hdef. rewrite Hba in Hdef. simpl in Hdef.
      rewrite store_lookup_set_eq in Hdef. simpl in Hdef.
      injection Hdef as <-. simpl. by rewrite set_level_same.
    + rewrite Hother2 by congruence. simpl. rewrite Hba. simpl.
      by rewrite store_lookup_set_eq.
  - intros server user name Hne.
    rewrite Hb3, Hb2, Hother2 by congruence. simpl. rewrite Hba. simpl.
    rewrite store_lookup_set_ne by congruence.
    rewrite Hb1. apply Hother1. congruence.
  - by rewrite Hb3, Hd3, Hb2, Hd2.
  - pose proof (keeps_registry_check_signals (user_id u) new
                  (fst (current old)) (achieved old) t2) as Hr3.
    rewrite Hc in Hr3. simpl in Hr3. congruence.
Qed.

Lemma highest_level_needs_increase old new :
  goals new = goals old →
  achieved old ≠ achieved new → unachieved new = [] →
  _current old < _current new.
Proof.
  intros Hg Hdiff Hnil.
  destruct (decide (_current old < _current new)) as [|Hle]; [done|].
  exfalso. apply Hdiff. unfold achieved. rewrite Hg.
  apply filter_in_ext. intros g Hin.
  assert (¬ _current new < level g).
  { intros Hlt. eapply (filter_nil_not_elem_of _ _ g Hnil); [done|].
    by rewrite Hg. }
  split; lia.
Qed.

(** X20: the signals a mutation that returns has sent, in order: "level
    increased" when the counter went up; then, when [achieved] differs from
    the snapshot, "goal achieved" and, when nothing is left unachieved,
    "highest level achieved".  "Highest level achieved" is sent only when
    the counter went up, so only after the two others. *)
Theorem signals_sent_by_a_mutation
    (m : mutation) u (r : achievement_ref) t t' (res : returned) :
  Tracker_mutate m u r t = (t', inr res) →
  ∃ t1 old new,
    Tracker_achievement_for_id u r t = (t1, inr (Inst old)) ∧
    apply_mutation m old = inr new ∧
    emitted t' = emitted t ++
      (if decide (_current old < _current new)
       then [level_increased (user_id u) new] else []) ++
      (if decide (achieved old ≠ achieved new)
       then goal_achieved (user_id u) new
              (filter (λ g, g ∉ achieved old) (achieved new)) ::
            (if decide (unachieved new = [])
             then [highest_level_achieved (user_id u) new] else [])
       else []) ∧
    (highest_level_achieved (user_id u) new ∈ drop (length (emitted t)) (emitted t') ↔
     _current old < _current new ∧ achieved old ≠ achieved new ∧
     unachieved new = []).
Proof.
  intros (t1 & t2 & old & new & cr & Hfetch & Hmut & E2 & Hchk & _)%mutate_inv.
  destruct (check_signals_spec (user_id u) new (fst (current old))
              (achieved old) t2) as (t3 & Hspec & Hev).
  rewrite Hchk in Hspec. injection Hspec as <- _.
  exists t1, old, new. split; [done|]. split; [done|].
  rewrite E2 in Hev. simpl in Hev. split; [done|].
  rewrite Hev, drop_app_length.
  pose proof (highest_level_needs_increase old new
                (apply_mutation_goals _ _ _ Hmut)) as Hinc.
  repeat case_decide; simpl; rewrite ?elem_of_cons, ?elem_of_nil;
    split; intros Hyp; try tauto;
    repeat (destruct Hyp as [Hyp|Hyp]; try done).
Qed.

Lemma ensure_entry_present u name fresh (acc : store) e :
  store_lookup (server_id u) (user_id u) name acc = Some e →
  ensure_entry u name fresh acc = acc.
Proof.
  unfold ensure_entry, store_lookup. intros H.
  destruct (acc !! server_id u) as [vs|] eqn:Hs; [|done].
  destruct (vs !! user_id u) as [vu|] eqn:Hu; [|done].
  rewrite (decide_True (P := is_Some (Some vs))) by (by eexists).
  rewrite Hs. simpl. rewrite Hu.
  rewrite (decide_True (P := is_Some (Some vu))) by (by eexists).
  rewrite Hs, Hu, H.
  by rewrite decide_True by (by eexists).
Qed.

(** X21: an entry that is not an instance, as the constructor of the
    backend loads them from the file, cannot be worked on: when the class
    is registered and no entry is kept under the empty name, every
    mutation and every view of that subject raises [AttributeError]. *)
Theorem loaded_entry_raises_attribute_error
    (m : mutation) u (r : achievement_ref) t (a0 : AchievementClass)
    (j : json) :
  head (filter (λ c, cls_name c = ref_name r) (_registry t)) = Some a0 →
  store_lookup (server_id u) (user_id u) (ref_name r) (accounts (backend t))
  = Some (Raw j) →
  ¬ has_empty_name (accounts (backend t)) →
  snd (Tracker_mutate m u r t) = inl AttributeError ∧
  snd (Tracker_current u r t) = inl AttributeError ∧
  snd (Tracker_current_name u r t) = inl AttributeError ∧
  snd (Tracker_current_description u r t) = inl AttributeError ∧
  snd (Tracker_achieved u r t) = inl AttributeError ∧
  snd (Tracker_unachieved u r t) = inl AttributeError.
Proof.
  intros Hhead Hraw Hnames.
  assert (Hname : cls_name a0 = ref_name r).
  { destruct (filter _ (_registry t)) as [|c rest] eqn:Hf; [done|].
    injection Hhead as ->.
    assert (a0 ∈ filter (λ c, cls_name c = ref_name r) (_registry t)) as Hin
      by (rewrite Hf; by left).
    by apply list_elem_of_filter in Hin as [? _]. }
  assert (Hfetch : ∃ t1, Tracker_achievement_for_id u r t = (t1, inr (Raw j))).
  { unfold Tracker_achievement_for_id, mbind, M_bind, bind, get. simpl.
    destruct (filter _ (_registry t)) as [|c rest]; [done|].
    injection Hhead as ->.
    unfold in_backend, zoom, achievement_for_id, mbind, M_bind, bind, modify,
      get. simpl.
    rewrite Hname.
    rewrite (ensure_entry_present u (ref_name r) _ _ _ Hraw).
    unfold _save_loyalty, mbind, M_bind, bind, get, save_json, modify. simpl.
    rewrite decide_False by done. simpl. rewrite Hraw. by eexists. }
  destruct Hfetch as [t1 Hfetch].
  split_and!.
  - destruct m; unfold Tracker_mutate, Tracker_increment, Tracker_evaluate,
      Tracker_set_level, mbind, M_bind, bind; by rewrite Hfetch.
  - unfold Tracker_current, mbind, M_bind, bind. by rewrite Hfetch.
  - unfold Tracker_current_name, mbind, M_bind, bind. by rewrite Hfetch.
  - unfold Tracker_current_description, mbind, M_bind, bind.
    by rewrite Hfetch.
  - unfold Tracker_achieved, mbind, M_bind, bind. by rewrite Hfetch.
  - unfold Tracker_unachieved, mbind, M_bind, bind. by rewrite Hfetch.
Qed.

(** When [achievement_for_id] of the backend returns, the file holds what
    [_save_loyalty] makes of [accounts]. *)
Lemma achievement_for_id_saves u (achievement : AchievementClass)
    (st st' : BackendState) e :
  achievement_for_id u achievement st = (st', inr e) →
  files st' !! file_path (self st') = Some (to_save (accounts (self st'))).
Proof.
  unfold achievement_for_id, mbind, M_bind, bind, modify, get. simpl.
  unfold _save_loyalty, mbind, M_bind, bind, get, save_json, modify. simpl.
  case_decide; [done|]. simpl.
  destruct (store_lookup _ _ _ _); [|done]. intros [= <- _]. simpl.
  by rewrite lookup_insert_eq.
Qed.

(** X22: the five views ([current], [current_name], [current_description],
    [achieved], [unachieved]) go through [achievement_for_id]: when it
    returns an instance, each returns its view of that instance, and the
    tracker left is the one [achievement_for_id] leaves.  So a view of a
    subject that had no entry creates one at level 0 under the first
    registered class of that name, and saves the file; no signal is
    sent. *)
Theorem views_fetch_or_create u (r : achievement_ref) t t1 a :
  Tracker_achievement_for_id u r t = (t1, inr (Inst a)) →
  Tracker_current u r t = (t1, inr (current a)) ∧
  Tracker_current_name u r t = (t1, inr (current_name a)) ∧
  Tracker_current_description u r t = (t1, inr (current_description a)) ∧
  Tracker_achieved u r t = (t1, inr (achieved a)) ∧
  Tracker_unachieved u r t = (t1, inr (unachieved a)) ∧
  (∃ a0,
     head (filter (λ c, cls_name c = ref_name r) (_registry t)) = Some a0 ∧
     Inst a = default (Inst (init a0 0))
                (store_lookup (server_id u) (user_id u) (ref_name r)
                   (accounts (backend t)))) ∧
  store_lookup (server_id u) (user_id u) (ref_name r) (accounts (backend t1))
  = Some (Inst a) ∧
  disk_files t1 !! file_path (backend t1)
  = Some (to_save (accounts (backend t1))) ∧
  emitted t1 = emitted t.
Proof.
  intros Hfetch.
  split_and!;
    try (unfold Tracker_current, Tracker_current_name,
           Tracker_current_description, Tracker_achieved, Tracker_unachieved,
           mbind, M_bind, bind; by rewrite Hfetch).
  all: apply tracker_achievement_for_id_inv in Hfetch
    as (a0 & st1 & Hhead & Hname & Hrun & Hb1 & Hd1 & Hr1 & He1).
  all: pose proof (achievement_for_id_saves _ _ _ _ _ Hrun) as Hfile.
  all: apply achievement_for_id_fetches_or_creates_lemma in Hrun
    as (Hl1 & Hold & Hother1).
  all: rewrite Hname in Hl1, Hold.
  - by exists a0.
  - by rewrite Hb1.
  - by rewrite Hb1, Hd1.
  - done.
Qed.

End TrackerMore.

(** [increment(user, Steps, -50)] on the sample tracker, where the user is
    at 100. *)
Lemma mutation_is_persisted_witness :
  let t := tracker_at_100 in
  let t' := fst (Tracker_mutate (MIncrement (-50)) sample_user
                   (ByClass Steps) t) in
  ∃ a0 old new,
    head (filter (λ c, cls_name c = ref_name (ByClass Steps)) (_registry t))
    = Some a0 ∧
    Inst old = default (Inst (init a0 0))
                 (store_lookup (server_id sample_user) (user_id sample_user)
                    (ref_name (ByClass Steps)) (accounts (backend t))) ∧
    apply_mutation (MIncrement (-50)) old = inr new ∧
    store_lookup (server_id sample_user) (user_id sample_user)
      (ref_name (ByClass Steps)) (accounts (backend t')) = Some (Inst new) ∧
    (∀ server user name,
       (server, user) ≠ (server_id sample_user, user_id sample_user) →
       store_lookup server user name (accounts (backend t'))
       = store_lookup server user name (accounts (backend t))) ∧
    disk_files t' !! file_path (backend t')
    = Some (to_save (accounts (backend t'))) ∧
    _registry t' = _registry t.
Proof.
  intros t t'.
  apply (mutation_is_persisted (MIncrement (-50)) sample_user (ByClass Steps)
           t t' (RCheck (NewGoals []))).
  vm_compute. reflexivity.
Defined.

(** The same call, for the signals. *)
Lemma signals_sent_by_a_mutation_witness :
  let t := tracker_at_100 in
  let t' := fst (Tracker_mutate (MIncrement (-50)) sample_user
                   (ByClass Steps) t) in
  ∃ t1 old new,
    Tracker_achievement_for_id sample_user (ByClass Steps) t
    = (t1, inr (Inst old)) ∧
    apply_mutation (MIncrement (-50)) old = inr new ∧
    emitted t' = emitted t ++
      (if decide (_current old < _current new)
       then [level_increased (user_id sample_user) new] else []) ++
      (if decide (achieved old ≠ achieved new)
       then goal_achieved (user_id sample_user) new
              (filter (λ g, g ∉ achieved old) (achieved new)) ::
            (if decide (unachieved new = [])
             then [highest_level_achieved (user_id sample_user) new] else [])
       else []) ∧
    (highest_level_achieved (user_id sample_user) new
       ∈ drop (length (emitted t)) (emitted t') ↔
     _current old < _current new ∧ achieved old ≠ achieved new ∧
     unachieved new = []).
Proof.
  intros t t'.
  apply (signals_sent_by_a_mutation (MIncrement (-50)) sample_user
           (ByClass Steps) t t' (RCheck (NewGoals []))).
  vm_compute. reflexivity.
Defined.

(** The tracker built after a restart on the saved file: the user's entry
    is the string ["S"]. *)
Lemma loaded_entry_raises_attribute_error_witness :
  snd (Tracker_mutate (MIncrement 1) sample_user (ByClass Steps)
         restarted_tracker) = inl AttributeError ∧
  snd (Tracker_current sample_user (ByClass Steps) restarted_tracker)
  = inl AttributeError ∧
  snd (Tracker_current_name sample_user (ByClass Steps) restarted_tracker)
  = inl AttributeError ∧
  snd (Tracker_current_description sample_user (ByClass Steps)
         restarted_tracker) = inl AttributeError ∧
  snd (Tracker_achieved sample_user (ByClass Steps) restarted_tracker)
  = inl AttributeError ∧
  snd (Tracker_unachieved sample_user (ByClass Steps) restarted_tracker)
  = inl AttributeError.
Proof.
  apply (loaded_entry_raises_attribute_error (MIncrement 1) sample_user
           (ByClass Steps) restarted_tracker Steps (JStr "S")).
  - vm_compute. reflexivity.
  - vm_compute. reflexivity.
  - apply (bool_decide_eq_false_1
             (has_empty_name (accounts (backend restarted_tracker)))).
    vm_compute. reflexivity.
Defined.

(** [achieved(user, Steps)] and the other views on the sample tracker. *)
Lemma views_fetch_or_create_witness :
  let t := tracker_at_100 in
  let t1 := fst (Tracker_achievement_for_id sample_user (ByClass Steps) t) in
  let a := steps_at 100 in
  Tracker_current sample_user (ByClass Steps) t = (t1, inr (current a)) ∧
  Tracker_current_name sample_user (ByClass Steps) t
  = (t1, inr (current_name a)) ∧
  Tracker_current_description sample_user (ByClass Steps) t
  = (t1, inr (current_description a)) ∧
  Tracker_achieved sample_user (ByClass Steps) t = (t1, inr (achieved a)) ∧
  Tracker_unachieved sample_user (ByClass Steps) t
  = (t1, inr (unachieved a)) ∧
  (∃ a0,
     head (filter (λ c, cls_name c = ref_name (ByClass Steps)) (_registry t))
     = Some a0 ∧
     Inst a = default (Inst (init a0 0))
                (store_lookup (server_id sample_user) (user_id sample_user)
                   (ref_name (ByClass Steps)) (accounts (backend t)))) ∧
  store_lookup (server_id sample_user) (user_id sample_user)
    (ref_name (ByClass Steps)) (accounts (backend t1)) = Some (Inst a) ∧
  disk_files t1 !! file_path (backend t1)
  = Some (to_save (accounts (backend t1))) ∧
  emitted t1 = emitted t.
Proof.
  intros t t1 a.
  apply (views_fetch_or_create sample_user (ByClass Steps) t t1 a).
  vm_compute. reflexivity.
Defined.

(** X23: [evaluate] of the tracker, when it returns, returns the whole
    [achieved] list of the instance after the instance's [evaluate]: the
    base method leaves the counter alone, the method of
    [DiscordAchievement] has added [good_points] and taken off
    [bad_points], and was given both. *)
Theorem evaluate_returns_achieved
    (args : list Z) (u : User) (r : achievement_ref)
    (t t' : AchievementTracker) (res : returned) :
  Tracker_mutate (MEvaluate args) u r t = (t', inr res) →
  ∃ t1 old new,
    Tracker_achievement_for_id u r t = (t1, inr (Inst old)) ∧
    res = RGoals (achieved new) ∧
    goals new = goals old ∧
    match cls_evaluate (a_class old) with
    | BaseEvaluate => new = old
    | NetPointsEvaluate =>
        ∃ good_points bad_points rest,
          args = good_points :: bad_points :: rest ∧
          _current new = _current old + good_points - bad_points
    end.
Proof.
  unfold Tracker_mutate, Tracker_evaluate, mbind, M_bind.
  intros (tz & x & H & [= <- <-])%bind_inr.
  apply bind_inr in H as (t1 & e & He & H).
  apply bind_inr in H as (t1' & old & [-> ->]%as_instance_inv & H).
  destruct (evaluate args old) as [err|[new result]] eqn:Hev; [done|].
  apply bind_inr in H as (ta & [] & Ha & H).
  apply bind_inr in H as (t2 & [] & Hb & H).
  apply bind_inr in H as (t3 & cr & Hc & [= <- <-]).
  exists t1, old, new. split; [done|].
  unfold evaluate in Hev.
  destruct (cls_evaluate (a_class old)).
  - by injection Hev as <- <-.
  - destruct args as [|good_points [|bad_points rest]]; try done.
    injection Hev as <- <-. split_and!; try done.
    by exists good_points, bad_points, rest.
Qed.

(** [evaluate(user, DiscordAchievement, 150, 50)] on a new tracker that
    registered the class. *)
Lemma evaluate_returns_achieved_witness :
  let t := run_calls new_tracker [Register (OneClass DiscordAchievement)] in
  let run := Tracker_mutate (MEvaluate [150; 50]) sample_user
               (ByClass DiscordAchievement) t in
  ∃ t1 old new,
    Tracker_achievement_for_id sample_user (ByClass DiscordAchievement) t
    = (t1, inr (Inst old)) ∧
    RGoals (achieved (init DiscordAchievement 100)) = RGoals (achieved new) ∧
    goals new = goals old ∧
    match cls_evaluate (a_class old) with
    | BaseEvaluate => new = old
    | NetPointsEvaluate =>
        ∃ good_points bad_points rest,
          [150; 50] = good_points :: bad_points :: rest ∧
          _current new = _current old + good_points - bad_points
    end.
Proof.
  intros t run.
  apply (evaluate_returns_achieved [150; 50] sample_user
           (ByClass DiscordAchievement) t (fst run)
           (RGoals (achieved (init DiscordAchievement 100)))).
  vm_compute. reflexivity.
Defined.
